(** * PodMate: credential store, podcast record store and podcast pipeline

    A shallow embedding of [podmate.py].  The persistence functions
    ([register_user], [authenticate_user], [save_podcast],
    [get_user_podcasts]) act on an explicit [Database] value that stands
    for the SQLite file [podmate.db]; the podcast generator tab of
    [show_main_app] runs in a small state-and-exception monad over a
    [World] that holds the database, the temporary files, the session
    list, the rendered widgets and the calls made to the collaborators.

    A Python [str] is represented by the bytes of its UTF-8 encoding, so
    that [str.encode('utf-8')] and [bytes.decode('utf-8')] are the
    identity on the representation. *)

From Stdlib Require Import ZArith QArith Lia Ascii.
From stdpp Require Import base tactics option list sorting strings pretty gmap.

Open Scope string_scope.
Open Scope list_scope.
Open Scope Z_scope.

(** ** Python values and exceptions *)

Definition bytes := string.

Definition encode_utf8 (s : string) : bytes := s.
Definition decode_utf8 (b : bytes) : string := b.

(** [StopException] is Streamlit's script-control exception, a
    [BaseException] that [except Exception] does not catch; the two other
    constructors are subclasses of [Exception]. *)
Inductive exn :=
| StopException
| IntegrityError (msg : string)
| OtherError (msg : string).

Definition str_exn (e : exn) : string :=
  match e with
  | StopException => ""
  | IntegrityError msg => msg
  | OtherError msg => msg
  end.

Definition result (A : Type) : Type := exn + A.

(** ** bcrypt

    The hashing primitive is an external library; the code only relies on
    [checkpw] accepting what [hashpw] produced. *)
Class Bcrypt := {
  bcrypt_hashpw : bytes → bytes → bytes;
  bcrypt_checkpw : bytes → bytes → bool
}.

Class BcryptSpec `{Bcrypt} : Prop := {
  bcrypt_checkpw_hashpw :
    ∀ password salt, bcrypt_checkpw password (bcrypt_hashpw password salt) = true
}.

(** ** The database file *)

Record user_row := {
  u_id : Z;
  u_username : string;
  u_password : string;
  u_created_at : string
}.

Record podcast_row := {
  p_id : Z;
  p_user_id : Z;
  p_title : string;
  p_summary : string;
  p_audio_path : string;
  p_created_at : string
}.

(** The two tables of [init_database], each with its [sqlite_sequence]
    entry (the tables are declared [AUTOINCREMENT]). *)
Record Database := {
  users : list user_row;
  users_seq : Z;
  podcasts : list podcast_row;
  podcasts_seq : Z
}.

(** What the surroundings decide for one use of the database: whether the
    connection, the statement or the commit raises an exception other than
    a constraint violation, and the value of [CURRENT_TIMESTAMP]. *)
Record SqliteEnv := {
  db_fault : option string;
  CURRENT_TIMESTAMP : string
}.

Definition empty_database : Database :=
  {| users := []; users_seq := 0; podcasts := []; podcasts_seq := 0 |}.

(** [CREATE TABLE IF NOT EXISTS]: an existing file is left as it is. *)
Definition init_database (file : option Database) : Database :=
  match file with
  | Some d => d
  | None => empty_database
  end.

Definition max_rowid (ids : list Z) : Z := foldr Z.max 0 ids.

(** [INTEGER PRIMARY KEY AUTOINCREMENT]: one more than the largest rowid
    the table ever held.  Running out of rowids is one of the failures
    that [db_fault] stands for. *)
Definition autoincrement (seq : Z) (ids : list Z) : Z :=
  Z.max seq (max_rowid ids) + 1.

(** [INSERT INTO users (username, password) VALUES (?, ?)] with
    [username TEXT UNIQUE NOT NULL]. *)
Definition insert_user (now username password : string) (d : Database)
  : result Database :=
  if bool_decide (username ∈ (u_username <$> users d))
  then inl (IntegrityError "UNIQUE constraint failed: users.username")
  else
    let id := autoincrement (users_seq d) (u_id <$> users d) in
    inr {| users := users d ++ [{| u_id := id; u_username := username;
                                   u_password := password;
                                   u_created_at := now |}];
           users_seq := id;
           podcasts := podcasts d;
           podcasts_seq := podcasts_seq d |}.

(** [SELECT id, password FROM users WHERE username = ?] then [fetchone()]. *)
Definition select_user (username : string) (d : Database) : option (Z * string) :=
  (λ ir, (u_id ir.2, u_password ir.2)) <$>
    list_find (λ r, u_username r = username) (users d).

(** [INSERT INTO podcasts (user_id, title, summary, audio_path)
    VALUES (?, ?, ?, ?)]; foreign keys are not enforced by a default
    connection. *)
Definition insert_podcast (now : string) (user_id : Z)
    (title summary audio_path : string) (d : Database) : result Database :=
  let id := autoincrement (podcasts_seq d) (p_id <$> podcasts d) in
  inr {| users := users d;
         users_seq := users_seq d;
         podcasts := podcasts d ++ [{| p_id := id; p_user_id := user_id;
                                       p_title := title;
                                       p_summary := summary;
                                       p_audio_path := audio_path;
                                       p_created_at := now |}];
         podcasts_seq := id |}.

(** One connection: [connect], the statement, [commit], [close].  Nothing
    is committed when an exception is raised. *)
Definition execute (e : SqliteEnv) (stmt : Database → result Database)
    (d : Database) : result Database :=
  match db_fault e with
  | Some msg => inl (OtherError msg)
  | None => stmt d
  end.

(** ** User management *)

Section UserManagement.
Context `{Bcrypt}.

Definition hash_password (salt : bytes) (password : string) : string :=
  let hashed := bcrypt_hashpw (encode_utf8 password) salt in
  decode_utf8 hashed.

Definition verify_password (password hashed_password : string) : bool :=
  bcrypt_checkpw (encode_utf8 password) (encode_utf8 hashed_password).

(** [salt] is the value of [bcrypt.gensalt()] for this call. *)
Definition register_user (e : SqliteEnv) (salt : bytes)
    (username password : string) (d : Database)
  : (bool * string) * Database :=
  let hashed_pw := hash_password salt password in
  match execute e (insert_user (CURRENT_TIMESTAMP e) username hashed_pw) d with
  | inr d' => ((true, "Registration successful"), d')
  | inl (IntegrityError _) => ((false, "Username already exists"), d)
  | inl ex => ((false, "Error: " +:+ str_exn ex), d)
  end.

Definition authenticate_user (e : SqliteEnv) (username password : string)
    (d : Database) : result (bool * option Z) :=
  match db_fault e with
  | Some msg => inl (OtherError msg)
  | None =>
      match select_user username d with
      | Some (id, hashed) =>
          if verify_password password hashed
          then inr (true, Some id)
          else inr (false, None)
      | None => inr (false, None)
      end
  end.
End UserManagement.

(** ** Podcast management *)

(** The dictionaries built by [get_user_podcasts]. *)
Record podcast := {
  title : string;
  summary : string;
  audio : string;
  created_at : string
}.

Definition podcast_of_row (row : podcast_row) : podcast :=
  {| title := p_title row; summary := p_summary row;
     audio := p_audio_path row; created_at := p_created_at row |}.

(** [ORDER BY created_at DESC] on the text that [CURRENT_TIMESTAMP]
    stores: [a] may come before [b] when [b] is not newer than [a]. *)
Definition created_at_desc (a b : podcast_row) : Prop :=
  String.le (p_created_at b) (p_created_at a).

#[global] Instance created_at_desc_dec : RelDecision created_at_desc :=
  λ a b, decide (String.le (p_created_at b) (p_created_at a)).

(** [SELECT title, summary, audio_path, created_at FROM podcasts
    WHERE user_id = ? ORDER BY created_at DESC]; the order among rows of
    equal [created_at] is the sorter's. *)
Definition select_podcasts (user_id : Z) (d : Database) : list podcast_row :=
  merge_sort created_at_desc (filter (λ r, p_user_id r = user_id) (podcasts d)).

Definition get_user_podcasts (e : SqliteEnv) (user_id : Z) (d : Database)
  : result (list podcast) :=
  match db_fault e with
  | Some msg => inl (OtherError msg)
  | None => inr (podcast_of_row <$> select_podcasts user_id d)
  end.

(** ** The world of one script run *)

(** The entries of [st.session_state.session_podcasts]. *)
Record session_podcast := {
  s_title : string;
  s_summary : string;
  s_audio : string
}.

Inductive widget :=
| st_error (body : string)
| st_success (body : string)
| st_warning (body : string)
| st_subheader (body : string)
| st_write (body : string)
| st_audio (path : string).

Inductive chain_type := stuff | map_reduce.

(** The calls made to the document loaders, the summarizer and the two
    speech synthesizers, with their arguments. *)
Inductive call :=
| LoadPdf (file_path : string)
| ReadText (file_path : string)
| Summarize (ct : chain_type) (chunks : list string)
| GroqSpeech (text output_path voice : string)
| GttsNew (text : string)
| GttsSave (text path : string).

Record World := {
  db : Database;
  files : gset string;
  session_podcasts : list session_podcast;
  screen : list widget;
  calls : list call
}.

Definition set_db (d : Database) (w : World) : World :=
  {| db := d; files := files w; session_podcasts := session_podcasts w;
     screen := screen w; calls := calls w |}.
Definition set_files (fs : gset string) (w : World) : World :=
  {| db := db w; files := fs; session_podcasts := session_podcasts w;
     screen := screen w; calls := calls w |}.
Definition set_session_podcasts (l : list session_podcast) (w : World) : World :=
  {| db := db w; files := files w; session_podcasts := l;
     screen := screen w; calls := calls w |}.
Definition set_screen (l : list widget) (w : World) : World :=
  {| db := db w; files := files w; session_podcasts := session_podcasts w;
     screen := l; calls := calls w |}.
Definition set_calls (l : list call) (w : World) : World :=
  {| db := db w; files := files w; session_podcasts := session_podcasts w;
     screen := screen w; calls := l |}.

(** State and exceptions: what was done before an exception stays done. *)
Definition M (A : Type) : Type := World → result A * World.

#[global] Instance M_ret : MRet M := λ A a w, (inr a, w).
#[global] Instance M_bind : MBind M := λ A B f m w,
  match m w with
  | (inr a, w') => f a w'
  | (inl e, w') => (inl e, w')
  end.

Definition raise {A} (e : exn) : M A := λ w, (inl e, w).

(** [try: body  except Exception as e: handler(e)]. *)
Definition try_except {A} (body : M A) (handler : exn → M A) : M A := λ w,
  match body w with
  | (inl StopException, w') => (inl StopException, w')
  | (inl e, w') => handler e w'
  | (inr a, w') => (inr a, w')
  end.

(** [try: body  finally: cleanup]. *)
Definition try_finally {A} (body : M A) (cleanup : M unit) : M A := λ w,
  match body w with
  | (r, w') =>
      match cleanup w' with
      | (inr _, w'') => (r, w'')
      | (inl e, w'') => (inl e, w'')
      end
  end.

Definition render (x : widget) : M unit := λ w,
  (inr (), set_screen (screen w ++ [x]) w).

Definition st_stop {A} : M A := raise StopException.

(** What a collaborator does when called: the message of the exception it
    raises, or the value it returns. *)
Definition outcome (A : Type) : Type := string + A.

Definition invoke {A} (c : call) (o : outcome A) : M A := λ w,
  let w' := set_calls (calls w ++ [c]) w in
  match o with
  | inl msg => (inl (OtherError msg), w')
  | inr a => (inr a, w')
  end.

Definition write_file (path : string) : M unit := λ w,
  (inr (), set_files ({[ path ]} ∪ files w) w).

Definition os_path_exists (path : string) : M bool := λ w,
  (inr (bool_decide (path ∈ files w)), w).

Definition os_unlink (path : string) : M unit := λ w,
  if bool_decide (path ∈ files w)
  then (inr (), set_files (files w ∖ {[ path ]}) w)
  else (inl (OtherError "No such file or directory"), w).

Definition session_append (entry : session_podcast) : M unit := λ w,
  (inr (), set_session_podcasts (session_podcasts w ++ [entry]) w).

Definition save_podcast (e : SqliteEnv) (user_id : Z)
    (title summary audio_path : string) : M bool := λ w,
  match execute e (insert_podcast (CURRENT_TIMESTAMP e) user_id title summary
                     audio_path) (db w) with
  | inr d' => (inr true, set_db d' w)
  | inl StopException => (inl StopException, w)
  | inl ex =>
      (x ← render (st_error ("Error saving podcast: " +:+ str_exn ex));
       mret false) w
  end.

(** ** Strings and paths *)

(** [s.endswith(suffix)]. *)
Fixpoint endswith (s suffix : string) : bool :=
  bool_decide (s = suffix) ||
  match s with
  | "" => false
  | String _ s' => endswith s' suffix
  end.

(** [s.replace(old, new)]: every occurrence of [old], left to right and
    without overlap; [skip] counts the characters of the occurrence just
    replaced that are still to be passed over. *)
Fixpoint replace_go (old new : string) (skip : nat) (s : string) : string :=
  match s with
  | "" => match old with "" => new | _ => "" end
  | String c s' =>
      match skip with
      | S n => replace_go old new n s'
      | O =>
          if String.prefix old s
          then new +:+ match old with
                       | "" => String c (replace_go old new 0 s')
                       | _ => replace_go old new (String.length old - 1) s'
                       end
          else String c (replace_go old new 0 s')
      end
  end.

Definition str_replace (s old new : string) : string := replace_go old new 0 s.

(** [os.path.join(a, b)] of [posixpath]. *)
Definition os_path_join (a b : string) : string :=
  if String.prefix "/" b then b
  else if bool_decide (a = "") || endswith a "/" then a +:+ b
  else a +:+ "/" +:+ b.

(** [os.path.splitext(p)[1]] of [posixpath]: the text from the last dot
    of the last component on, provided a character other than a dot comes
    before that dot in the component.  [leading] tells that only dots were
    read in the component so far, [ext] is the extension so far. *)
Fixpoint splitext_go (leading : bool) (ext : string) (p : string) : string :=
  match p with
  | "" => ext
  | String c p' =>
      if bool_decide (c = "/"%char) then splitext_go true "" p'
      else if bool_decide (c = "."%char) then
        if leading then splitext_go true "" p' else splitext_go false "." p'
      else
        splitext_go false
          (match ext with "" => "" | _ => ext +:+ String c "" end) p'
  end.

Definition splitext_ext (p : string) : string := splitext_go true "" p.

(** The code points of a [str], read off its UTF-8 representation:
    [pending] continuation bytes are still expected for the code point
    whose leading bits are [acc]. *)
Fixpoint code_points_go (pending : nat) (acc : N) (s : string) : list N :=
  match s with
  | "" => []
  | String c s' =>
      let b := N_of_ascii c in
      match pending with
      | O =>
          if (b <? 128)%N then b :: code_points_go 0 0 s'
          else if (b <? 224)%N then code_points_go 1 (N.land b 31) s'
          else if (b <? 240)%N then code_points_go 2 (N.land b 15) s'
          else code_points_go 3 (N.land b 7) s'
      | S n =>
          let acc' := (acc * 64 + N.land b 63)%N in
          match n with
          | O => acc' :: code_points_go 0 0 s'
          | S _ => code_points_go n acc' s'
          end
      end
  end.

Definition code_points (s : string) : list N := code_points_go 0 0 s.

(** [str.isspace] on one character. *)
Definition isspace (c : N) : bool :=
  ((9 <=? c) && (c <=? 13) || (28 <=? c) && (c <=? 32) ||
   (c =? 133) || (c =? 160) || (c =? 5760) ||
   (8192 <=? c) && (c <=? 8202) || (c =? 8232) || (c =? 8233) ||
   (c =? 8239) || (c =? 8287) || (c =? 12288))%N.

(** [s.split()]: the maximal runs of characters that are not white space;
    [cur] is the word being read. *)
Fixpoint split_go (cur : option (list N)) (l : list N) : list (list N) :=
  match l with
  | [] => match cur with Some w => [w] | None => [] end
  | c :: l' =>
      if isspace c
      then match cur with
           | Some w => w :: split_go None l'
           | None => split_go None l'
           end
      else split_go (Some (default [] cur ++ [c])) l'
  end.

Definition str_split (s : string) : list (list N) := split_go None (code_points s).

(** ** The podcast generator tab of [show_main_app] *)

(** An uploaded file as the generator sees it: its name, the number of
    bytes of its content, and the MIME type that [magic.from_buffer]
    reports for its first 2048 bytes. *)
Record UploadedFile := {
  name : string;
  size_bytes : Z;
  magic_mime : string
}.

(** What the collaborators and the operating system answer during one
    script run.  [speech_create] stands for the request to the primary
    synthesizer together with writing its response to the output path. *)
Record Env := {
  sqlite : SqliteEnv;
  tmp_prefix : string;
  PyPDFLoader_load : string → outcome (list string);
  open_read : string → outcome string;
  create_documents : list string → list string;
  summarize_chain_run : chain_type → list string → outcome string;
  datetime_now : string;
  speech_create : string → string → string → outcome unit;
  gTTS : string → outcome unit;
  gTTS_save : string → string → outcome unit
}.

Definition allowed_mime : list string := ["application/pdf"; "text/plain"].

(** [os.path.getsize(file_path) / (1024 * 1024)], as an exact quotient;
    the divisor is a power of two, so the comparison with 10 comes out
    the same in binary floating point. *)
Definition file_size_mb (f : UploadedFile) : Q :=
  (inject_Z (size_bytes f) / inject_Z (1024 * 1024))%Q.

Definition word_count (text_content : string) : Z :=
  Z.of_nat (length (str_split text_content)).

Definition select_chain_type (text_content : string) : chain_type :=
  if bool_decide (word_count text_content < 5000) then stuff else map_reduce.

Section PodcastGenerator.
Context (env : Env) (username : string) (user_id : Z).

(** [tempfile.NamedTemporaryFile(delete=False, suffix=...)] followed by the
    write of the upload: a file whose name ends with the suffix. *)
Definition NamedTemporaryFile (suffix : string) : M string :=
  let file_path := tmp_prefix env +:+ suffix in
  _ ← write_file file_path;
  mret file_path.

(** The text of the document and the texts handed to the splitter. *)
Definition load_text (uploaded_file : UploadedFile) (file_path : string)
  : M (string * list string) :=
  if endswith (name uploaded_file) ".pdf" then
    docs ← invoke (LoadPdf file_path) (PyPDFLoader_load env file_path);
    mret (String.concat " " docs, docs)
  else
    text_content ← invoke (ReadText file_path) (open_read env file_path);
    mret (text_content, [text_content]).

Definition generate_podcast_audio (text output_path voice : string) : M string :=
  _ ← invoke (GroqSpeech text output_path voice)
        (speech_create env text output_path voice);
  _ ← write_file output_path;
  mret output_path.

Definition gtts_fallback (summary audio_path : string) : M string :=
  _ ← render (st_warning "⚠️ Groq TTS limit reached — using gTTS fallback.");
  _ ← invoke (GttsNew summary) (gTTS env summary);
  let audio_path := str_replace audio_path ".wav" ".mp3" in
  _ ← invoke (GttsSave summary audio_path) (gTTS_save env summary audio_path);
  _ ← write_file audio_path;
  mret audio_path.

(** The first part of the [try] block: load the text, split it, choose
    the chain by the word count, summarize and show the summary. *)
Definition summarize_document (uploaded_file : UploadedFile) (file_path : string)
  : M string :=
  '(text_content, texts) ← load_text uploaded_file file_path;
  let chunks := create_documents env texts in
  let chain := select_chain_type text_content in
  summary ← invoke (Summarize chain chunks) (summarize_chain_run env chain chunks);
  _ ← render (st_subheader "🧾 Summary:");
  _ ← render (st_write summary);
  mret summary.

(** The second part: the audio file name and the synthesis, with its
    fallback.  The audio directory itself is not part of [files]. *)
Definition synthesize (summary : string) : M string :=
  let timestamp := datetime_now env in
  let audio_filename := username +:+ "_" +:+ timestamp +:+ ".wav" in
  let audio_path := os_path_join "audio_files" audio_filename in
  try_except
    (generate_podcast_audio summary audio_path "Celeste-PlayAI")
    (λ _, gtts_fallback summary audio_path).

(** The last part: play, report, save to the database, add to the
    session. *)
Definition publish (uploaded_file : UploadedFile) (summary audio_path : string)
  : M unit :=
  _ ← render (st_audio audio_path);
  _ ← render (st_success "🎧 Podcast generated successfully!");
  _ ← save_podcast (sqlite env) user_id (name uploaded_file) summary audio_path;
  session_append {| s_title := name uploaded_file; s_summary := summary;
                    s_audio := audio_path |}.

(** The body of the [try] block under the Generate button. *)
Definition generate_podcast (uploaded_file : UploadedFile) (file_path : string)
  : M unit :=
  summary ← summarize_document uploaded_file file_path;
  audio_path ← synthesize summary;
  publish uploaded_file summary audio_path.

Definition cleanup_temp_file (file_path : string) : M unit :=
  present ← os_path_exists file_path;
  if present : bool then os_unlink file_path else mret ().

(** The first check of the upload: the sniffed type. *)
Definition check_mime (uploaded_file : UploadedFile) : M unit :=
  let mime := magic_mime uploaded_file in
  if negb (bool_decide (mime ∈ allowed_mime)) then
    _ ← render (st_error "❌ Invalid file type. Please upload a valid PDF or TXT file.");
    st_stop
  else mret ().

(** The [try] statement under the Generate button: an exception of the
    body is shown, and the temporary copy is removed in every case. *)
Definition try_generate (uploaded_file : UploadedFile) (file_path : string)
  : M unit :=
  try_finally
    (try_except (generate_podcast uploaded_file file_path)
       (λ e, render (st_error ("❌ Error generating podcast: " +:+ str_exn e))))
    (cleanup_temp_file file_path).

(** The second block on the upload: the temporary copy, the size bound
    and, when the button was clicked, the generation. *)
Definition process_upload (uploaded_file : UploadedFile) (clicked : bool) : M unit :=
  file_path ← NamedTemporaryFile (splitext_ext (name uploaded_file));
  _ ← render (st_success "✅ File uploaded successfully!");
  _ ← (if negb (Qle_bool (file_size_mb uploaded_file) 10) then
         _ ← render (st_error "❌ File too large! Please upload a file smaller than 10 MB.");
         _ ← os_unlink file_path;
         st_stop
       else mret ());
  if clicked then try_generate uploaded_file file_path else mret ().

(** The podcast generator tab of [show_main_app], from the file uploader
    to the end of the [try] statement: [uploaded_file] is what the
    uploader returned, [clicked] whether the Generate button was pressed.
    The sidebar, the key check and the two other tabs are left out. *)
Definition show_main_app (uploaded_file : option UploadedFile)
    (clicked : bool) : M unit :=
  _ ← match uploaded_file with
      | Some f => check_mime f
      | None => mret ()
      end;
  match uploaded_file with
  | Some f => process_upload f clicked
  | None => mret ()
  end.

End PodcastGenerator.

(** ** Names for what a run of the generator meets *)

(** The path of the temporary copy of an upload. *)
Definition temp_file_path (env : Env) (f : UploadedFile) : string :=
  tmp_prefix env +:+ splitext_ext (name f).

(** The loader call that [load_text] makes for an upload. *)
Definition loader_call (f : UploadedFile) (file_path : string) : call :=
  if endswith (name f) ".pdf" then LoadPdf file_path else ReadText file_path.

(** What that loader answers: the text of the document and the texts
    handed to the splitter, or the message of the exception. *)
Definition text_extraction (env : Env) (f : UploadedFile) (file_path : string)
  : outcome (string * list string) :=
  if endswith (name f) ".pdf" then
    match PyPDFLoader_load env file_path with
    | inl msg => inl msg
    | inr docs => inr (String.concat " " docs, docs)
    end
  else
    match open_read env file_path with
    | inl msg => inl msg
    | inr text_content => inr (text_content, [text_content])
    end.

(** The output path given to the primary synthesizer, and the path the
    fallback writes to. *)
Definition wav_path (env : Env) (username : string) : string :=
  os_path_join "audio_files" (username +:+ "_" +:+ datetime_now env +:+ ".wav").

Definition mp3_path (env : Env) (username : string) : string :=
  str_replace (wav_path env username) ".wav" ".mp3".

Definition voice : string := "Celeste-PlayAI".

(** The upload passes the two checks made before the Generate button. *)
Definition accepted (f : UploadedFile) : Prop :=
  magic_mime f ∈ allowed_mime ∧ size_bytes f ≤ 10 * 1024 * 1024.

(** The audio of a summary was synthesized, by the primary synthesizer or
    by the fallback, to the given path. *)
Inductive synthesized (env : Env) (username summary : string) : string → Prop :=
| synthesized_by_primary :
    speech_create env summary (wav_path env username) voice = inr () →
    synthesized env username summary (wav_path env username)
| synthesized_by_fallback msg :
    speech_create env summary (wav_path env username) voice = inl msg →
    gTTS env summary = inr () →
    gTTS_save env summary (mp3_path env username) = inr () →
    synthesized env username summary (mp3_path env username).

(** The fallback synthesizer failed on a summary, with the given message. *)
Definition fallback_fails (env : Env) (username summary msg : string) : Prop :=
  gTTS env summary = inl msg ∨
  (gTTS env summary = inr () ∧
   gTTS_save env summary (mp3_path env username) = inl msg).

(** A step of the pipeline failed, with the given message: the text
    extraction, the summarization, or the audio synthesis with its
    fallback. *)
Inductive step_failure (env : Env) (username : string) (f : UploadedFile)
    (file_path : string) : string → Prop :=
| extraction_failure msg :
    text_extraction env f file_path = inl msg →
    step_failure env username f file_path msg
| summarization_failure text_content texts msg :
    text_extraction env f file_path = inr (text_content, texts) →
    summarize_chain_run env (select_chain_type text_content)
      (create_documents env texts) = inl msg →
    step_failure env username f file_path msg
| synthesis_failure text_content texts summary msg1 msg :
    text_extraction env f file_path = inr (text_content, texts) →
    summarize_chain_run env (select_chain_type text_content)
      (create_documents env texts) = inr summary →
    speech_create env summary (wav_path env username) voice = inl msg1 →
    fallback_fails env username summary msg →
    step_failure env username f file_path msg.

(** ** Orderings of a listing *)

(** Each record is at least as new as every record after it. *)
Definition newest_first (l : list podcast) : Prop :=
  StronglySorted (λ a b, String.le (created_at b) (created_at a)) l.

(** Each record is newer than every record after it. *)
Definition strictly_newest_first (l : list podcast) : Prop :=
  StronglySorted (λ a b, strict String.le (created_at b) (created_at a)) l.

(** The rows of the podcast table owned by a user, as dictionaries. *)
Definition owned_by (user_id : Z) (d : Database) : list podcast :=
  podcast_of_row <$> filter (λ r, p_user_id r = user_id) (podcasts d).

(** A database that answers, at the given time. *)
Definition quiet (now : string) : SqliteEnv :=
  {| db_fault := None; CURRENT_TIMESTAMP := now |}.

(** Two podcasts saved by user 1 within the same second, and one of
    user 2. *)
Definition same_second_database : Database :=
  {| users := []; users_seq := 0;
     podcasts :=
       [ {| p_id := 1; p_user_id := 1; p_title := "a.txt"; p_summary := "A";
            p_audio_path := "audio_files/ann_20240501_100000.wav";
            p_created_at := "2024-05-01 10:00:00" |};
         {| p_id := 2; p_user_id := 2; p_title := "b.txt"; p_summary := "B";
            p_audio_path := "audio_files/bob_20240501_100000.wav";
            p_created_at := "2024-05-01 10:00:00" |};
         {| p_id := 3; p_user_id := 1; p_title := "c.txt"; p_summary := "C";
            p_audio_path := "audio_files/ann_20240501_100000.mp3";
            p_created_at := "2024-05-01 10:00:00" |} ];
     podcasts_seq := 3 |}.

(** ** Sample data *)

(** A stand-in for bcrypt that keeps the salt in front of the password and
    checks the end of the hash. *)
Definition sample_bcrypt : Bcrypt :=
  {| bcrypt_hashpw := λ password salt, salt +:+ "$" +:+ password;
     bcrypt_checkpw := λ password hashed, endswith hashed ("$" +:+ password) |}.

Definition alice_row : user_row :=
  {| u_id := 1; u_username := "alice"; u_password := "N9qo8uLO$s3cret-pw";
     u_created_at := "2024-05-01 09:00:00" |}.

Definition alice_database : Database :=
  {| users := [alice_row]; users_seq := 1; podcasts := []; podcasts_seq := 0 |}.

(** A database whose connection raises. *)
Definition locked : SqliteEnv :=
  {| db_fault := Some "database is locked";
     CURRENT_TIMESTAMP := "2024-05-01 10:00:00" |}.

(** Collaborators for a run: the PDF loader rejects the file, the plain
    read returns a short text, the summarizer answers, the fallback
    synthesizer works; the database and the primary synthesizer are as
    given. *)
Definition sample_env (database : SqliteEnv) (primary : outcome ()) : Env :=
  {| sqlite := database;
     tmp_prefix := "/tmp/tmpk3v9x2ab";
     PyPDFLoader_load := λ _, inl "EOF marker not found";
     open_read := λ _, inr "hello brave new world";
     create_documents := λ texts, texts;
     summarize_chain_run := λ _ _, inr "A greeting.";
     datetime_now := "20240501_100000";
     speech_create := λ _ _ _, primary;
     gTTS := λ _, inr ();
     gTTS_save := λ _ _, inr () |}.

Definition empty_world : World :=
  {| db := empty_database; files := ∅; session_podcasts := []; screen := [];
     calls := [] |}.

Definition notes_txt : UploadedFile :=
  {| name := "notes.txt"; size_bytes := 21; magic_mime := "text/plain" |}.

(** A plain text file that was given a [.pdf] name. *)
Definition renamed_text_file : UploadedFile :=
  {| name := "notes.pdf"; size_bytes := 21; magic_mime := "text/plain" |}.

Definition big_pdf : UploadedFile :=
  {| name := "book.pdf"; size_bytes := 10485761;
     magic_mime := "application/pdf" |}.

(** A text of [n] words. *)
Definition text_of_words (n : nat) : string :=
  String.concat " " (replicate n "word").

(** * The session, the API key and the pages *)

(** ** Session state *)

(** The entries of [st.session_state.mes]. *)
Record message := {
  role : string;
  content : string
}.

(** [st.session_state] without [session_podcasts], which is part of the
    [World]. *)
Record SessionState := {
  ss_logged_in : bool;
  ss_username : string;
  ss_user_id : option Z;
  ss_mes : list message;
  ss_groq_api_key : string;
  ss_api_key_validated : bool;
  ss_validation_message : string
}.

(** The values that the session-state block gives to keys that are not
    there yet. *)
Definition initial_session : SessionState :=
  {| ss_logged_in := false; ss_username := ""; ss_user_id := None;
     ss_mes := []; ss_groq_api_key := ""; ss_api_key_validated := false;
     ss_validation_message := "" |}.

(** What a page puts on screen outside the generator: sidebar and page
    status boxes, text, audio players, expanders (with their label) and
    chat messages.  Titles, headers and fixed markdown are left out. *)
Inductive element :=
| sidebar_success (body : string)
| sidebar_error (body : string)
| sidebar_warning (body : string)
| page_success (body : string)
| page_error (body : string)
| page_warning (body : string)
| page_info (body : string)
| page_write (body : string)
| page_audio (path : string)
| expander (label : string)
| chat_message (msg_role msg_content : string).

(** One browser session: the session state, the world of the generator
    and what the pages rendered. *)
Record App := {
  session : SessionState;
  world : World;
  page : list element
}.

Definition set_session (s : SessionState) (a : App) : App :=
  {| session := s; world := world a; page := page a |}.
Definition set_world (w : World) (a : App) : App :=
  {| session := session a; world := w; page := page a |}.
Definition emit (x : element) (a : App) : App :=
  {| session := session a; world := world a; page := page a ++ [x] |}.

(** How a run of the script ends: at its last line, by [st.rerun()], by
    [st.stop()], or with an exception that nothing caught. *)
Inductive page_end :=
| Finished
| Rerun
| Stopped
| Crashed (e : exn).

(** [len(s)]: the number of characters. *)
Definition len (s : string) : nat := length (code_points s).

(** [sub in s]. *)
Fixpoint str_contains (sub s : string) : bool :=
  String.prefix sub s ||
  match s with
  | "" => false
  | String _ s' => str_contains sub s'
  end.

(** [s[:n]]: the first [n] characters; a byte that continues a character
    stays with it. *)
Fixpoint str_take (n : nat) (s : string) : string :=
  match s with
  | "" => ""
  | String c s' =>
      let b := N_of_ascii c in
      if (128 <=? b)%N && (b <? 192)%N then String c (str_take n s')
      else match n with
           | O => ""
           | S n' => String c (str_take n' s')
           end
  end.

(** ** API key validation *)

(** [clients] stands for building the two Groq clients with a key: the
    message of the exception raised, or nothing. *)
Definition validate_api_key_callback (clients : string → outcome ())
    (api_key : string) (s : SessionState) : SessionState :=
  if bool_decide (api_key = "") || (len api_key <? 10)%nat then
    {| ss_logged_in := ss_logged_in s; ss_username := ss_username s;
       ss_user_id := ss_user_id s; ss_mes := ss_mes s;
       ss_groq_api_key := ss_groq_api_key s;
       ss_api_key_validated := false;
       ss_validation_message := "⚠️ API key too short" |}
  else
    match clients api_key with
    | inr _ =>
        {| ss_logged_in := ss_logged_in s; ss_username := ss_username s;
           ss_user_id := ss_user_id s; ss_mes := ss_mes s;
           ss_groq_api_key := api_key;
           ss_api_key_validated := true;
           ss_validation_message := "✅ API Key validated successfully!" |}
    | inl _ =>
        {| ss_logged_in := ss_logged_in s; ss_username := ss_username s;
           ss_user_id := ss_user_id s; ss_mes := ss_mes s;
           ss_groq_api_key := "";
           ss_api_key_validated := false;
           ss_validation_message := "❌ Invalid API Key" |}
    end.

(** ** Login and registration page *)

Record LoginForm := {
  username_input : string;
  password_input : string
}.

Record RegisterForm := {
  new_username : string;
  new_password : string;
  confirm_password : string
}.

Definition greeting : message :=
  {| role := "ai"; content := "Hello! I'm your AI research assistant 🤖." |}.

Section AuthPage.
Context `{Bcrypt}.

(** The login form when submitted. *)
Definition login_form (e : SqliteEnv) (form : LoginForm) (a : App)
  : page_end * App :=
  match authenticate_user e (username_input form) (password_input form)
          (db (world a)) with
  | inl ex => (Crashed ex, a)
  | inr (success, user_id) =>
      if success : bool then
        let s := session a in
        let a :=
          set_world (set_session_podcasts [] (world a))
            (set_session
               {| ss_logged_in := true;
                  ss_username := username_input form;
                  ss_user_id := user_id;
                  ss_mes := [greeting];
                  ss_groq_api_key := ss_groq_api_key s;
                  ss_api_key_validated := ss_api_key_validated s;
                  ss_validation_message := ss_validation_message s |} a) in
        (Rerun,
         emit (page_success ("Welcome back, " +:+ username_input form +:+ "!")) a)
      else (Finished, emit (page_error "❌ Invalid username or password") a)
  end.

(** The sign-up form when submitted; [salt] is the value of
    [bcrypt.gensalt()] should the registration be tried. *)
Definition register_form (e : SqliteEnv) (salt : bytes) (form : RegisterForm)
    (a : App) : App :=
  if bool_decide (new_username form = "") || bool_decide (new_password form = "")
  then emit (page_error "❌ Please fill in all fields") a
  else if (len (new_username form) <? 3)%nat
  then emit (page_error "❌ Username must be at least 3 characters") a
  else if (len (new_password form) <? 6)%nat
  then emit (page_error "❌ Password must be at least 6 characters") a
  else if negb (bool_decide (new_password form = confirm_password form))
  then emit (page_error "❌ Passwords do not match") a
  else
    match register_user e salt (new_username form) (new_password form)
            (db (world a)) with
    | ((success, msg), d') =>
        let a := set_world (set_db d' (world a)) a in
        if success : bool
        then emit (page_success ("✅ " +:+ msg +:+ " Please login now!")) a
        else emit (page_error ("❌ " +:+ msg)) a
    end.

(** [show_auth_page]: [login] and [signup] are the forms submitted in
    this run, if any. *)
Definition show_auth_page (e : SqliteEnv) (salt : bytes)
    (login : option LoginForm) (signup : option RegisterForm) (a : App)
  : page_end * App :=
  let '(r, a) := match login with
                 | Some form => login_form e form a
                 | None => (Finished, a)
                 end in
  match r with
  | Finished =>
      (Finished,
       match signup with
       | Some form => register_form e salt form a
       | None => a
       end)
  | _ => (r, a)
  end.

End AuthPage.

(** ** The main page *)

(** What the page needs besides the generator's collaborators: the
    database as the history tab finds it, the outcome of building the
    model client and the tools, and the agent, which answers a prompt
    with the contents of its messages. *)
Record PageEnv := {
  pipeline : Env;
  history_db : SqliteEnv;
  init_services : outcome ();
  agent_invoke : string → outcome (list string)
}.

(** What the user did before this run: the logout button, the uploaded
    file, the Generate button, the chat input. *)
Record PageInput := {
  in_logout : bool;
  in_upload : option UploadedFile;
  in_generate : bool;
  in_prompt : option string
}.

(** The status line under the key field of the sidebar. *)
Definition show_validation_message (a : App) : App :=
  let msg := ss_validation_message (session a) in
  if bool_decide (msg = "") then a
  else if str_contains "✅" msg then emit (sidebar_success msg) a
  else if str_contains "❌" msg then emit (sidebar_error msg) a
  else emit (sidebar_warning msg) a.

(** The Logout button. *)
Definition log_out (a : App) : App :=
  set_world (set_session_podcasts [] (world a))
    (set_session
       {| ss_logged_in := false; ss_username := ""; ss_user_id := None;
          ss_mes := []; ss_groq_api_key := ""; ss_api_key_validated := false;
          ss_validation_message := "" |} a).

(** One expander of the session list: the summary, and the player when
    the audio file is there. *)
Definition show_session_podcast (i : nat) (pod : session_podcast) (a : App)
  : App :=
  let a := emit (expander ("🎧 " +:+ pretty (i + 1)%nat +:+ ". " +:+ s_title pod)) a in
  let a := emit (page_write (s_summary pod)) a in
  if bool_decide (s_audio pod ∈ files (world a))
  then emit (page_audio (s_audio pod)) a
  else a.

Fixpoint show_session_podcasts (i : nat) (pods : list session_podcast)
    (a : App) : App :=
  match pods with
  | [] => a
  | pod :: pods' => show_session_podcasts (S i) pods' (show_session_podcast i pod a)
  end.

(** One expander of the history: the summary, and the player or a
    warning. *)
Definition show_history_podcast (i : nat) (pod : podcast) (a : App) : App :=
  let a := emit (expander ("🎧 " +:+ pretty (i + 1)%nat +:+ ". " +:+ title pod +:+
                           " - " +:+ str_take 10 (created_at pod))) a in
  let a := emit (page_write "**Summary:**") a in
  let a := emit (page_write (summary pod)) a in
  if bool_decide (audio pod ∈ files (world a))
  then emit (page_audio (audio pod)) a
  else emit (page_warning "⚠️ Audio file not found") a.

Fixpoint show_history (i : nat) (pods : list podcast) (a : App) : App :=
  match pods with
  | [] => a
  | pod :: pods' => show_history (S i) pods' (show_history_podcast i pod a)
  end.

Definition set_mes (l : list message) (s : SessionState) : SessionState :=
  {| ss_logged_in := ss_logged_in s; ss_username := ss_username s;
     ss_user_id := ss_user_id s; ss_mes := l;
     ss_groq_api_key := ss_groq_api_key s;
     ss_api_key_validated := ss_api_key_validated s;
     ss_validation_message := ss_validation_message s |}.

Definition set_api_key_validated (b : bool) (s : SessionState) : SessionState :=
  {| ss_logged_in := ss_logged_in s; ss_username := ss_username s;
     ss_user_id := ss_user_id s; ss_mes := ss_mes s;
     ss_groq_api_key := ss_groq_api_key s;
     ss_api_key_validated := b;
     ss_validation_message := ss_validation_message s |}.

(** [response["messages"][-1].content], or the sentence made from the
    exception. *)
Definition agent_reply (answer : outcome (list string)) : string :=
  match answer with
  | inl msg => "Sorry, I encountered an error: " +:+ msg
  | inr contents =>
      match last contents with
      | Some output_text => output_text
      | None => "Sorry, I encountered an error: list index out of range"
      end
  end.

Section MainPage.
Context (env : PageEnv) (username : string) (user_id : Z).

(** The Research Assistant tab. *)
Definition research_assistant (prompt : option string) (a : App) : App :=
  let a := foldl (λ a msg, emit (chat_message (role msg) (content msg)) a) a
             (ss_mes (session a)) in
  match prompt with
  | None => a
  | Some "" => a
  | Some prompt =>
      let a := set_session
                 (set_mes (ss_mes (session a) ++
                           [{| role := "user"; content := prompt |}])
                    (session a)) a in
      let a := emit (chat_message "user" prompt) a in
      let output_text := agent_reply (agent_invoke env prompt) in
      let a := emit (chat_message "ai" output_text) a in
      set_session
        (set_mes (ss_mes (session a) ++
                  [{| role := "ai"; content := output_text |}])
           (session a)) a
  end.

(** The Podcast History tab. *)
Definition podcast_history (a : App) : page_end * App :=
  match get_user_podcasts (history_db env) user_id (db (world a)) with
  | inl ex => (Crashed ex, a)
  | inr [] =>
      (Finished,
       emit (page_info "ℹ️ No podcast history yet. Generate one from the 'Podcast Generator' tab!") a)
  | inr user_history => (Finished, show_history 0 user_history a)
  end.

(** The Podcast Generator tab: the generator, then the list of this
    session. *)
Definition podcast_generator_tab (i : PageInput) (a : App) : page_end * App :=
  match show_main_app (pipeline env) username user_id (in_upload i)
          (in_generate i) (world a) with
  | (inl StopException, w') => (Stopped, set_world w' a)
  | (inl ex, w') => (Crashed ex, set_world w' a)
  | (inr _, w') =>
      let a := set_world w' a in
      (Finished, show_session_podcasts 0 (session_podcasts (world a)) a)
  end.

(** All of [show_main_app]; [username] and [user_id] are what its first
    two lines read from the session. *)
Definition show_main_app_page (i : PageInput) (a : App) : page_end * App :=
  let a := emit (sidebar_success ("👤 Logged in as **" +:+ username +:+ "**")) a in
  let a := show_validation_message a in
  if in_logout i then (Rerun, log_out a)
  else if negb (ss_api_key_validated (session a)) then
    let a := emit (page_warning "⚠️ Please enter a valid Groq API Key in the sidebar to access the features.") a in
    (Finished,
     emit (page_info "💡 **Get your free API key from:** https://console.groq.com/keys") a)
  else
    match init_services env with
    | inl msg =>
        let a := emit (page_error ("❌ Error initializing services: " +:+ msg)) a in
        (Rerun, set_session (set_api_key_validated false (session a)) a)
    | inr _ =>
        match podcast_generator_tab i a with
        | (Finished, a) => podcast_history (research_assistant (in_prompt i) a)
        | (r, a) => (r, a)
        end
    end.

End MainPage.

(** The database and the session list after a run of the generator for a
    user: unchanged, or with one more entry for the given title. *)
Definition at_most_one_podcast (user_id : Z) (doc_title : string)
    (w w' : World) : Prop :=
  users (db w') = users (db w) ∧
  users_seq (db w') = users_seq (db w) ∧
  (db w' = db w ∨
   ∃ row, podcasts (db w') = podcasts (db w) ++ [row] ∧
          p_user_id row = user_id ∧ p_title row = doc_title ∧
          session_podcasts w' =
            session_podcasts w ++
            [{| s_title := doc_title; s_summary := p_summary row;
                s_audio := p_audio_path row |}]) ∧
  (session_podcasts w' = session_podcasts w ∨
   ∃ entry, session_podcasts w' = session_podcasts w ++ [entry] ∧
            s_title entry = doc_title).

(** ** Runs of the script *)

(** A browser session that has just started, on a new database file. *)
Definition fresh_app : App :=
  {| session := initial_session; world := empty_world; page := [] |}.

(** One step of a session: the key callback, or a run of the script,
    which renders the login page when nobody is logged in and the main
    page, for the name and id of the session, otherwise. *)
Inductive script_run `{Bcrypt} : App → App → Prop :=
| run_callback clients api_key a :
    script_run a
      (set_session (validate_api_key_callback clients api_key (session a)) a)
| run_auth_page e salt login signup a r a' :
    ss_logged_in (session a) = false →
    show_auth_page e salt login signup a = (r, a') →
    script_run a a'
| run_main_page env user_id i a r a' :
    ss_logged_in (session a) = true →
    ss_user_id (session a) = Some user_id →
    show_main_app_page env (ss_username (session a)) user_id i a = (r, a') →
    script_run a a'.

(** Usernames and ids are unique, and every podcast belongs to a
    registered user. *)
Definition db_invariant (d : Database) : Prop :=
  NoDup (u_username <$> users d) ∧
  NoDup (u_id <$> users d) ∧
  ∀ r, r ∈ podcasts d → p_user_id r ∈ (u_id <$> users d).

(** A logged-in session carries the id and the name of one stored
    account; a session that is not logged in carries neither. *)
Definition session_invariant (s : SessionState) (d : Database) : Prop :=
  if ss_logged_in s
  then ∃ row, row ∈ users d ∧ ss_user_id s = Some (u_id row) ∧
              ss_username s = u_username row
  else ss_user_id s = None ∧ ss_username s = "".

Definition app_invariant (a : App) : Prop :=
  db_invariant (db (world a)) ∧ session_invariant (session a) (db (world a)).

(** ** Sample sessions *)

Definition alice_world : World :=
  {| db := alice_database; files := ∅; session_podcasts := []; screen := [];
     calls := [] |}.

(** A visitor on the login page, with the account of alice in store. *)
Definition visitor_app : App :=
  {| session := initial_session; world := alice_world; page := [] |}.

(** Alice logged in, with or without a validated key. *)
Definition alice_session (validated : bool) : SessionState :=
  {| ss_logged_in := true; ss_username := "alice"; ss_user_id := Some 1;
     ss_mes := [greeting]; ss_groq_api_key := "gsk_0123456789";
     ss_api_key_validated := validated;
     ss_validation_message :=
       if validated then "✅ API Key validated successfully!"
       else "❌ Invalid API Key" |}.

Definition alice_app (validated : bool) : App :=
  {| session := alice_session validated; world := alice_world; page := [] |}.

(** The collaborators of [sample_env] with a working primary synthesizer,
    a database that answers, and an agent that cannot be reached. *)
Definition sample_page_env (services : outcome ()) : PageEnv :=
  {| pipeline := sample_env (quiet "2024-05-01 10:00:00") (inr ());
     history_db := quiet "2024-05-01 10:00:05";
     init_services := services;
     agent_invoke := λ _, inl "connection refused" |}.

Definition alice_sign_up : RegisterForm :=
  {| new_username := "alice"; new_password := "s3cret-pw";
     confirm_password := "s3cret-pw" |}.

Definition alice_login : LoginForm :=
  {| username_input := "alice"; password_input := "s3cret-pw" |}.


(** * Properties *)

(** ** The credential store *)

Lemma select_user_None username d :
  select_user username d = None ↔ username ∉ (u_username <$> users d).
Proof.
  unfold select_user.
  rewrite fmap_None, list_find_None, Forall_forall, list_elem_of_fmap.
  split.
  - intros Hall (row & -> & Hrow). by eapply Hall.
  - intros Hno row Hrow Hname. apply Hno. eauto.
Qed.

Lemma select_user_Some username d id hashed :
  select_user username d = Some (id, hashed) →
  ∃ row, row ∈ users d ∧ u_username row = username ∧
         u_id row = id ∧ u_password row = hashed.
Proof.
  unfold select_user. intros ([i row] & Hfind & Heq)%fmap_Some.
  apply list_find_Some in Hfind as (Hrow & Hname & _).
  simpl in Heq. injection Heq as -> ->.
  exists row. eauto using list_elem_of_lookup_2.
Qed.

Lemma select_user_new_row username d row :
  username ∉ (u_username <$> users d) →
  u_username row = username →
  select_user username
    {| users := users d ++ [row]; users_seq := u_id row;
       podcasts := podcasts d; podcasts_seq := podcasts_seq d |}
  = Some (u_id row, u_password row).
Proof.
  intros Hfresh Hname. apply select_user_None in Hfresh.
  unfold select_user in *. apply fmap_None in Hfresh. simpl.
  rewrite list_find_app_r by done. simpl.
  rewrite decide_True by done. done.
Qed.

(** A successful insert appends exactly one row, which carries the given
    name and hash, to a table that had no row of that name. *)
Lemma insert_user_inr now username password d d' :
  insert_user now username password d = inr d' →
  (username ∉ (u_username <$> users d)) ∧
  ∃ row, u_username row = username ∧ u_password row = password ∧
         d' = {| users := users d ++ [row]; users_seq := u_id row;
                 podcasts := podcasts d; podcasts_seq := podcasts_seq d |}.
Proof.
  unfold insert_user. case_bool_decide as Hin; [done|].
  intros [= <-]. split; [done|]. by eexists (Build_user_row _ _ _ _).
Qed.

Lemma insert_user_duplicate now username password d :
  username ∈ (u_username <$> users d) →
  insert_user now username password d
  = inl (IntegrityError "UNIQUE constraint failed: users.username").
Proof. intros Hin. unfold insert_user. by rewrite bool_decide_true. Qed.

Lemma register_user_true `{Bcrypt} e salt username password d msg d' :
  register_user e salt username password d = ((true, msg), d') →
  insert_user (CURRENT_TIMESTAMP e) username (hash_password salt password) d
  = inr d'.
Proof.
  unfold register_user, execute.
  destruct (db_fault e); [done|].
  destruct (insert_user _ _ _ _) as [[]|]; naive_solver.
Qed.

(** The store keeps usernames unique: [register_user] never leaves two
    rows of one name. *)
Lemma register_user_usernames_unique `{Bcrypt} e salt username password d :
  NoDup (u_username <$> users d) →
  NoDup (u_username <$> users (register_user e salt username password d).2).
Proof.
  intros Hunique.
  destruct (register_user e salt username password d) as [[[] msg] d'] eqn:Hreg.
  - apply register_user_true, insert_user_inr in Hreg
      as (Hfresh & row & Hname & _ & ->).
    simpl. rewrite fmap_app. apply NoDup_app. split_and!; [done|..].
    + intros name Hold [->|[]%elem_of_nil]%elem_of_cons. by rewrite Hname in Hold.
    + apply NoDup_singleton.
  - revert Hreg. unfold register_user.
    destruct (execute _ _ _) as [[]|]; intros Heq; by simplify_eq.
Qed.

(** C1.  When [register_user] accepts a username and a password, the
    database it leaves holds exactly one row for that username, and
    [authenticate_user] with the same username and password on that
    database succeeds and returns the id of that row. *)
Theorem register_then_authenticate `{BcryptSpec}
    e salt username password d msg d' e' :
  register_user e salt username password d = ((true, msg), d') →
  db_fault e' = None →
  ∃ row, row ∈ users d' ∧ u_username row = username ∧
         (∀ row', row' ∈ users d' → u_username row' = username → row' = row) ∧
         authenticate_user e' username password d' = inr (true, Some (u_id row)).
Proof.
  intros Hreg He'.
  apply register_user_true, insert_user_inr in Hreg
    as (Hfresh & row & Hname & Hpw & ->).
  exists row. simpl. split_and!.
  - set_solver.
  - done.
  - intros row' [Hold| ->%list_elem_of_singleton]%elem_of_app Hname'; [|done].
    destruct Hfresh. apply list_elem_of_fmap. eauto.
  - unfold authenticate_user. rewrite He'.
    rewrite select_user_new_row by done.
    unfold verify_password. rewrite Hpw. unfold hash_password, decode_utf8, encode_utf8.
    by rewrite bcrypt_checkpw_hashpw.
Qed.

(** C2.  When the store holds a row with the given username,
    [register_user] with that username fails and leaves the database as
    it was, so the id, username and hash of the existing account are
    unchanged; the failure is the duplicate-username error whenever the
    database itself raised nothing. *)
Theorem register_duplicate_username `{Bcrypt} e salt password d row :
  row ∈ users d →
  ∃ msg, register_user e salt (u_username row) password d = ((false, msg), d) ∧
         (db_fault e = None → msg = "Username already exists").
Proof.
  intros Hrow. unfold register_user, execute.
  destruct (db_fault e) as [fault|].
  - eexists. split; [done|]. done.
  - rewrite insert_user_duplicate by (apply list_elem_of_fmap; eauto).
    eexists. split; done.
Qed.

(** C3.  When no row stored under the username has a hash that the
    password verifies against (in particular when the username is absent),
    [authenticate_user] returns [(False, None)], and in no case does it
    return success. *)
Theorem authenticate_wrong_password `{Bcrypt} e username password d :
  (∀ row, row ∈ users d → u_username row = username →
          verify_password password (u_password row) = false) →
  (db_fault e = None →
   authenticate_user e username password d = inr (false, None)) ∧
  (∀ id, authenticate_user e username password d ≠ inr (true, id)).
Proof.
  intros Hwrong.
  assert (Hcases : select_user username d = None ∨
            ∃ id hashed, select_user username d = Some (id, hashed) ∧
                         verify_password password hashed = false).
  { destruct (select_user username d) as [[id hashed]|] eqn:Hsel; [|by left].
    right. exists id, hashed. split; [done|].
    apply select_user_Some in Hsel as (row & ? & ? & ? & <-). eauto. }
  unfold authenticate_user.
  destruct (db_fault e); [by split|].
  destruct Hcases as [->|(id & hashed & -> & ->)]; by split.
Qed.

(** ** The podcast record store *)

#[local] Instance created_at_desc_trans : Transitive created_at_desc.
Proof. intros a b c Hab Hbc. unfold created_at_desc in *. by etrans. Qed.

#[local] Instance created_at_desc_total : Total created_at_desc.
Proof. intros a b. unfold created_at_desc. apply (total String.le). Qed.

Lemma select_podcasts_perm user_id d :
  select_podcasts user_id d ≡ₚ filter (λ r, p_user_id r = user_id) (podcasts d).
Proof. apply merge_sort_Permutation. Qed.

Lemma select_podcasts_sorted user_id d :
  StronglySorted created_at_desc (select_podcasts user_id d).
Proof. apply StronglySorted_merge_sort; apply _. Qed.

(** C4, as the code has it.  While the database answers,
    [get_user_podcasts] returns the rows owned by the given user and no
    others, each once, ordered so that no record is older than a record
    after it; records of equal timestamp are not ordered further. *)
Theorem get_user_podcasts_newest_first e user_id d :
  db_fault e = None →
  ∃ l, get_user_podcasts e user_id d = inr l ∧
       l ≡ₚ owned_by user_id d ∧
       newest_first l.
Proof.
  intros He. unfold get_user_podcasts. rewrite He. eexists. split; [done|].
  split.
  - unfold owned_by. by rewrite select_podcasts_perm.
  - unfold newest_first.
    apply StronglySorted_fmap with (R1 := created_at_desc).
    + by intros a b.
    + apply select_podcasts_sorted.
Qed.

(** C4, as stated, fails: two podcasts of one user saved within the same
    second are both listed, and neither is newer than the other. *)
Lemma get_user_podcasts_same_second :
  get_user_podcasts (quiet "2024-05-01 10:00:01") 1 same_second_database
  = inr [ {| title := "a.txt"; summary := "A";
             audio := "audio_files/ann_20240501_100000.wav";
             created_at := "2024-05-01 10:00:00" |};
          {| title := "c.txt"; summary := "C";
             audio := "audio_files/ann_20240501_100000.mp3";
             created_at := "2024-05-01 10:00:00" |} ] ∧
  ¬ strictly_newest_first
      [ {| title := "a.txt"; summary := "A";
           audio := "audio_files/ann_20240501_100000.wav";
           created_at := "2024-05-01 10:00:00" |};
        {| title := "c.txt"; summary := "C";
           audio := "audio_files/ann_20240501_100000.mp3";
           created_at := "2024-05-01 10:00:00" |} ].
Proof.
  split; [by vm_compute|].
  intros Hsorted. inversion Hsorted as [|? ? _ Hhd]; subst.
  apply Forall_cons_1 in Hhd as [[_ Hneq] _]. by apply Hneq.
Qed.

(** ** Strings and paths *)

Lemma append_assoc s1 s2 s3 : (s1 +:+ s2) +:+ s3 = s1 +:+ s2 +:+ s3.
Proof.
  induction s1 as [|a s1 IH]; [done|].
  change (String a ((s1 +:+ s2) +:+ s3) = String a (s1 +:+ s2 +:+ s3)).
  by rewrite IH.
Qed.

Lemma prefix_append p s :
  String.prefix p s = true → ∃ rest, s = p +:+ rest.
Proof.
  revert s. induction p as [|a p IH]; intros s; simpl.
  - destruct s; eauto.
  - destruct s as [|b s]; [done|]. simpl.
    destruct (ascii_dec a b) as [->|]; [|done].
    intros [rest ->]%IH. eauto.
Qed.

Lemma replace_go_cons old new c s :
  replace_go old new 0 (String c s) =
  if String.prefix old (String c s)
  then new +:+ match old with
               | "" => String c (replace_go old new 0 s)
               | _ => replace_go old new (String.length old - 1) s
               end
  else String c (replace_go old new 0 s).
Proof. done. Qed.

(** Replacing [".wav"] changes every string that ends with [".wav"]. *)
Lemma str_replace_wav_changes stem :
  str_replace (stem +:+ ".wav") ".wav" ".mp3" ≠ stem +:+ ".wav".
Proof.
  unfold str_replace. induction stem as [|c stem IH]; [done|].
  change (String c stem +:+ ".wav") with (String c (stem +:+ ".wav")).
  rewrite replace_go_cons.
  destruct (String.prefix ".wav" (String c (stem +:+ ".wav"))) eqn:Hprefix.
  - apply prefix_append in Hprefix as [rest Hrest]. rewrite Hrest.
    intros Heq. cbv -[replace_go] in Heq. congruence.
  - congruence.
Qed.

Lemma wav_path_stem env username :
  ∃ stem, wav_path env username = stem +:+ ".wav".
Proof.
  unfold wav_path, os_path_join.
  set (b := username +:+ "_" +:+ datetime_now env +:+ ".wav").
  assert (Hb : ∃ stem, b = stem +:+ ".wav").
  { exists (username +:+ "_" +:+ datetime_now env). unfold b.
    by rewrite !append_assoc. }
  destruct Hb as [stem Hb]. destruct (String.prefix "/" b); [eauto|].
  simpl. exists ("audio_files/" +:+ stem). by rewrite Hb, !append_assoc.
Qed.

Lemma mp3_path_changes env username :
  mp3_path env username ≠ wav_path env username.
Proof.
  unfold mp3_path. destruct (wav_path_stem env username) as [stem ->].
  apply str_replace_wav_changes.
Qed.

Lemma select_chain_type_stuff text_content :
  select_chain_type text_content = stuff ↔ word_count text_content < 5000.
Proof. unfold select_chain_type. case_bool_decide; split; (done || lia). Qed.

Lemma select_chain_type_map_reduce text_content :
  select_chain_type text_content = map_reduce ↔ 5000 ≤ word_count text_content.
Proof. unfold select_chain_type. case_bool_decide; split; (done || lia). Qed.

(** The threshold, and white space that is not ASCII (a no-break space,
    bytes 194 and 160). *)
Example chain_of_4999_words : select_chain_type (text_of_words 4999) = stuff.
Proof. by vm_compute. Qed.

Example chain_of_5000_words :
  select_chain_type (text_of_words 5000) = map_reduce.
Proof. by vm_compute. Qed.

Example word_count_no_break_space :
  word_count
    (String "a" (String (ascii_of_nat 194) (String (ascii_of_nat 160) "b")))
  = 2.
Proof. by vm_compute. Qed.

(** ** The stages of the podcast generator *)

Ltac unfold_M :=
  unfold mbind, M_bind, mret, M_ret, invoke, render, raise, st_stop,
    write_file, session_append, try_except, try_finally,
    set_db, set_files, set_session_podcasts, set_screen, set_calls in *.

Lemma size_check (f : UploadedFile) :
  Qle_bool (file_size_mb f) 10 = true ↔ size_bytes f ≤ 10 * 1024 * 1024.
Proof.
  rewrite Qle_bool_iff. unfold file_size_mb, Qle, Qdiv, Qmult, Qinv, inject_Z.
  simpl. lia.
Qed.

Lemma insert_podcast_raises e now user_id title summary audio_path d ex :
  execute e (insert_podcast now user_id title summary audio_path) d = inl ex →
  ∃ msg, ex = OtherError msg.
Proof.
  unfold execute, insert_podcast.
  destruct (db_fault e); [|done]. intros [= <-]. eauto.
Qed.

Section PodcastGeneratorFacts.
Context (env : Env) (username : string) (user_id : Z).

Lemma load_text_run f file_path w :
  load_text env f file_path w =
  (match text_extraction env f file_path with
   | inl msg => inl (OtherError msg)
   | inr r => inr r
   end,
   {| db := db w; files := files w; session_podcasts := session_podcasts w;
      screen := screen w; calls := calls w ++ [loader_call f file_path] |}).
Proof.
  unfold load_text, text_extraction, loader_call. unfold_M.
  destruct (endswith (name f) ".pdf");
    [destruct (PyPDFLoader_load env file_path)
    |destruct (open_read env file_path)]; done.
Qed.

Lemma summarize_document_extraction_fails f file_path w msg :
  text_extraction env f file_path = inl msg →
  summarize_document env f file_path w =
  (inl (OtherError msg),
   {| db := db w; files := files w; session_podcasts := session_podcasts w;
      screen := screen w; calls := calls w ++ [loader_call f file_path] |}).
Proof.
  intros Hload. unfold summarize_document, mbind, M_bind at 1.
  by rewrite load_text_run, Hload.
Qed.

Lemma summarize_document_run f file_path w text_content texts :
  text_extraction env f file_path = inr (text_content, texts) →
  summarize_document env f file_path w =
  let chain := select_chain_type text_content in
  let chunks := create_documents env texts in
  match summarize_chain_run env chain chunks with
  | inl msg =>
      (inl (OtherError msg),
       {| db := db w; files := files w; session_podcasts := session_podcasts w;
          screen := screen w;
          calls := calls w ++ [loader_call f file_path; Summarize chain chunks] |})
  | inr summary =>
      (inr summary,
       {| db := db w; files := files w; session_podcasts := session_podcasts w;
          screen := screen w ++ [st_subheader "🧾 Summary:"; st_write summary];
          calls := calls w ++ [loader_call f file_path; Summarize chain chunks] |})
  end.
Proof.
  intros Hload. unfold summarize_document, mbind, M_bind at 1.
  rewrite load_text_run, Hload. unfold_M. simpl.
  destruct (summarize_chain_run env _ _); simpl; by rewrite <- !(assoc_L (++)).
Qed.

Lemma synthesize_primary summary w :
  speech_create env summary (wav_path env username) voice = inr () →
  synthesize env username summary w =
  (inr (wav_path env username),
   {| db := db w; files := {[ wav_path env username ]} ∪ files w;
      session_podcasts := session_podcasts w; screen := screen w;
      calls := calls w ++ [GroqSpeech summary (wav_path env username) voice] |}).
Proof.
  intros Hprimary. unfold synthesize, generate_podcast_audio.
  fold (wav_path env username). fold voice. unfold_M.
  by rewrite Hprimary.
Qed.

Lemma synthesize_fallback summary w msg :
  speech_create env summary (wav_path env username) voice = inl msg →
  synthesize env username summary w =
  let warned :=
    screen w ++ [st_warning "⚠️ Groq TTS limit reached — using gTTS fallback."] in
  let speech := GroqSpeech summary (wav_path env username) voice in
  match gTTS env summary with
  | inl msg' =>
      (inl (OtherError msg'),
       {| db := db w; files := files w; session_podcasts := session_podcasts w;
          screen := warned; calls := calls w ++ [speech; GttsNew summary] |})
  | inr _ =>
      let saving := GttsSave summary (mp3_path env username) in
      match gTTS_save env summary (mp3_path env username) with
      | inl msg' =>
          (inl (OtherError msg'),
           {| db := db w; files := files w;
              session_podcasts := session_podcasts w; screen := warned;
              calls := calls w ++ [speech; GttsNew summary; saving] |})
      | inr _ =>
          (inr (mp3_path env username),
           {| db := db w; files := {[ mp3_path env username ]} ∪ files w;
              session_podcasts := session_podcasts w; screen := warned;
              calls := calls w ++ [speech; GttsNew summary; saving] |})
      end
  end.
Proof.
  intros Hprimary. unfold synthesize, generate_podcast_audio, gtts_fallback.
  fold (wav_path env username). fold (mp3_path env username). fold voice.
  unfold_M. rewrite Hprimary. simpl.
  destruct (gTTS env summary); simpl; [by rewrite <- !(assoc_L (++))|].
  destruct (gTTS_save env summary _); simpl; by rewrite <- !(assoc_L (++)).
Qed.

Lemma publish_run f summary audio_path w :
  publish env user_id f summary audio_path w =
  let saved :=
    execute (sqlite env)
      (insert_podcast (CURRENT_TIMESTAMP (sqlite env)) user_id (name f) summary
         audio_path) (db w) in
  (inr (),
   {| db := match saved with inr d' => d' | inl _ => db w end;
      files := files w;
      session_podcasts :=
        session_podcasts w ++ [{| s_title := name f; s_summary := summary;
                                  s_audio := audio_path |}];
      screen :=
        screen w ++ [st_audio audio_path;
                     st_success "🎧 Podcast generated successfully!"] ++
        match saved with
        | inr _ => []
        | inl ex => [st_error ("Error saving podcast: " +:+ str_exn ex)]
        end;
      calls := calls w |}).
Proof.
  unfold publish, save_podcast. unfold_M. simpl.
  destruct (execute _ _ _) as [ex|d'] eqn:Hsave; simpl.
  - apply insert_podcast_raises in Hsave as [msg ->]. simpl.
    by rewrite <- !(assoc_L (++)).
  - by rewrite <- !(assoc_L (++)).
Qed.

Lemma cleanup_temp_file_run file_path w :
  cleanup_temp_file file_path w =
  (inr (),
   {| db := db w; files := files w ∖ {[ file_path ]};
      session_podcasts := session_podcasts w; screen := screen w;
      calls := calls w |}).
Proof.
  unfold cleanup_temp_file, os_path_exists, os_unlink. unfold_M.
  destruct w as [d fs sp sc cs]; simpl.
  case_bool_decide as Hin; simpl.
  - by rewrite bool_decide_true.
  - do 2 f_equal. symmetry. apply difference_disjoint_L.
    by apply disjoint_singleton_r.
Qed.

End PodcastGeneratorFacts.

(** ** Runs of the podcast generator *)

Section PodcastGeneratorRuns.
Context (env : Env) (username : string) (user_id : Z).

Lemma check_mime_accepted f w :
  magic_mime f ∈ allowed_mime → check_mime f w = (inr (), w).
Proof. intros Hmime. unfold check_mime. by rewrite bool_decide_true. Qed.

Lemma check_mime_rejected f w :
  magic_mime f ∉ allowed_mime →
  check_mime f w =
  (inl StopException,
   {| db := db w; files := files w; session_podcasts := session_podcasts w;
      screen := screen w ++
        [st_error "❌ Invalid file type. Please upload a valid PDF or TXT file."];
      calls := calls w |}).
Proof. intros Hmime. unfold check_mime. by rewrite bool_decide_false. Qed.

(** The world once the temporary copy of an accepted upload exists. *)
Lemma run_accepted f clicked w :
  accepted f →
  show_main_app env username user_id (Some f) clicked w =
  let uploaded :=
    {| db := db w; files := {[ temp_file_path env f ]} ∪ files w;
       session_podcasts := session_podcasts w;
       screen := screen w ++ [st_success "✅ File uploaded successfully!"];
       calls := calls w |} in
  if clicked
  then try_generate env username user_id f (temp_file_path env f) uploaded
  else (inr (), uploaded).
Proof.
  intros [Hmime Hsize%size_check].
  unfold show_main_app, mbind, M_bind at 1.
  rewrite check_mime_accepted by done.
  unfold process_upload, NamedTemporaryFile. fold (temp_file_path env f).
  rewrite Hsize. unfold_M. simpl.
  by destruct clicked.
Qed.

(** X24.  Without a click nothing is generated and the temporary copy
    made for this run stays: no collaborator is called and the file is
    still there when the run ends. *)
Lemma temp_copy_kept_without_click f w :
  accepted f →
  ∃ w', show_main_app env username user_id (Some f) false w = (inr (), w') ∧
        temp_file_path env f ∈ files w' ∧ calls w' = calls w.
Proof.
  intros Hok. rewrite run_accepted with (1 := Hok). simpl.
  eexists. split; [done|]. simpl. split; [|done].
  apply elem_of_union_l. by apply elem_of_singleton.
Qed.

Lemma try_generate_run f file_path w :
  try_generate env username user_id f file_path w =
  match generate_podcast env username user_id f file_path w with
  | (inl StopException, w') =>
      (inl StopException,
       {| db := db w'; files := files w' ∖ {[ file_path ]};
          session_podcasts := session_podcasts w'; screen := screen w';
          calls := calls w' |})
  | (inl e, w') =>
      (inr (),
       {| db := db w'; files := files w' ∖ {[ file_path ]};
          session_podcasts := session_podcasts w';
          screen := screen w' ++
            [st_error ("❌ Error generating podcast: " +:+ str_exn e)];
          calls := calls w' |})
  | (inr _, w') =>
      (inr (),
       {| db := db w'; files := files w' ∖ {[ file_path ]};
          session_podcasts := session_podcasts w'; screen := screen w';
          calls := calls w' |})
  end.
Proof.
  unfold try_generate, try_finally, try_except.
  destruct (generate_podcast _ _ _ _ _ _) as [[[]|[]] w']; simpl.
  all: by rewrite cleanup_temp_file_run.
Qed.

Lemma generate_podcast_step_failure f file_path w msg :
  step_failure env username f file_path msg →
  ∃ w', generate_podcast env username user_id f file_path w
        = (inl (OtherError msg), w') ∧
        db w' = db w ∧ files w' = files w ∧
        session_podcasts w' = session_podcasts w.
Proof.
  intros [msg' Hload
         |text_content texts msg' Hload Hsum
         |text_content texts summary msg1 msg' Hload Hsum Hprimary Hfallback];
    unfold generate_podcast, mbind, M_bind.
  - rewrite summarize_document_extraction_fails with (msg := msg') by done.
    eauto.
  - rewrite summarize_document_run with (1 := Hload). simpl. rewrite Hsum. eauto.
  - rewrite summarize_document_run with (1 := Hload). simpl. rewrite Hsum.
    rewrite synthesize_fallback with (1 := Hprimary). simpl.
    destruct Hfallback as [Hnew|[Hnew Hsave]]; rewrite Hnew, ?Hsave; eauto.
Qed.

Lemma generate_podcast_synthesized f file_path w text_content texts summary
    audio_path :
  text_extraction env f file_path = inr (text_content, texts) →
  summarize_chain_run env (select_chain_type text_content)
    (create_documents env texts) = inr summary →
  synthesized env username summary audio_path →
  generate_podcast env username user_id f file_path w =
  publish env user_id f summary audio_path
    {| db := db w; files := {[ audio_path ]} ∪ files w;
       session_podcasts := session_podcasts w;
       screen := screen w ++
         [st_subheader "🧾 Summary:"; st_write summary] ++
         match speech_create env summary (wav_path env username) voice with
         | inr _ => []
         | inl _ =>
             [st_warning "⚠️ Groq TTS limit reached — using gTTS fallback."]
         end;
       calls := calls w ++
         [loader_call f file_path;
          Summarize (select_chain_type text_content) (create_documents env texts);
          GroqSpeech summary (wav_path env username) voice] ++
         match speech_create env summary (wav_path env username) voice with
         | inr _ => []
         | inl _ => [GttsNew summary;
                     GttsSave summary (mp3_path env username)]
         end |}.
Proof.
  intros Hload Hsum Hsynth. unfold generate_podcast, mbind, M_bind.
  rewrite summarize_document_run with (1 := Hload). simpl. rewrite Hsum.
  destruct Hsynth as [Hprimary|msg Hprimary Hnew Hsave].
  - rewrite synthesize_primary with (1 := Hprimary). rewrite Hprimary. simpl.
    by rewrite <- !(assoc_L (++)).
  - rewrite synthesize_fallback with (1 := Hprimary). rewrite Hprimary. simpl.
    rewrite Hnew, Hsave. simpl. by rewrite <- !(assoc_L (++)).
Qed.

(** C5.  For an accepted upload with the button pressed, the temporary
    copy is gone when the run ends, whatever happened; and when a step
    fails (text extraction, summarization, or the audio synthesis with its
    fallback) the run ends normally with the database and the session list
    as they were and the error shown last. *)
Theorem failed_step_aborts_cleanly f w :
  accepted f →
  ∃ r w', show_main_app env username user_id (Some f) true w = (r, w') ∧
          (temp_file_path env f ∉ files w') ∧
          ∀ msg, step_failure env username f (temp_file_path env f) msg →
                 r = inr () ∧
                 db w' = db w ∧
                 podcasts (db w') = podcasts (db w) ∧
                 session_podcasts w' = session_podcasts w ∧
                 last (screen w') =
                   Some (st_error ("❌ Error generating podcast: " +:+ msg)).
Proof.
  intros Hok. rewrite run_accepted with (1 := Hok). simpl.
  rewrite try_generate_run.
  destruct (generate_podcast _ _ _ _ _ _) as [r0 w0] eqn:Hgen.
  assert (Hfailure : ∀ msg,
            step_failure env username f (temp_file_path env f) msg →
            r0 = inl (OtherError msg) ∧ db w0 = db w ∧
            session_podcasts w0 = session_podcasts w).
  { intros msg Hfail.
    eapply generate_podcast_step_failure in Hfail as (w' & Hgen' & ? & _ & ?).
    rewrite Hgen in Hgen'. by simplify_eq. }
  destruct r0 as [[| |msg0]|[]]; do 2 eexists; (split; [done|]); simpl.
  all: split; [apply not_elem_of_difference; right; by apply elem_of_singleton|].
  all: intros m (Hr & Hdb & Hsess)%Hfailure; simplify_eq.
  rewrite Hdb, Hsess. split_and!; try done. apply last_snoc.
Qed.

(** C6.  An upload of more than 10 MB stops the script before any
    collaborator is called: no loader, summarizer or synthesizer call is
    made, nothing is stored, and no file is left behind; when the upload
    had passed the type check, its temporary copy was created and is
    removed again, and the size error is the last thing shown. *)
Theorem oversized_upload_rejected f clicked w :
  10 * 1024 * 1024 < size_bytes f →
  ∃ w', show_main_app env username user_id (Some f) clicked w
        = (inl StopException, w') ∧
        calls w' = calls w ∧
        db w' = db w ∧
        session_podcasts w' = session_podcasts w ∧
        files w' ⊆ files w ∧
        (magic_mime f ∈ allowed_mime →
         (temp_file_path env f ∉ files w') ∧
         screen w' = screen w ++
           [st_success "✅ File uploaded successfully!";
            st_error "❌ File too large! Please upload a file smaller than 10 MB."]).
Proof.
  intros Hsize.
  assert (Hbig : Qle_bool (file_size_mb f) 10 = false).
  { apply not_true_is_false. rewrite size_check. lia. }
  unfold show_main_app, mbind, M_bind at 1.
  destruct (decide (magic_mime f ∈ allowed_mime)) as [Hmime|Hmime].
  - rewrite check_mime_accepted by done.
    unfold process_upload, NamedTemporaryFile, os_unlink.
    fold (temp_file_path env f). rewrite Hbig. unfold_M. simpl.
    rewrite bool_decide_true by (apply elem_of_union_l; by apply elem_of_singleton).
    eexists. split; [done|]. simpl. split_and!; try done.
    + intros x [[->%elem_of_singleton|Hx]%elem_of_union Hne]%elem_of_difference;
        [|done].
      destruct Hne. by apply elem_of_singleton.
    + intros _. split.
      * apply not_elem_of_difference. right. by apply elem_of_singleton.
      * by rewrite <- (assoc_L (++)).
  - rewrite check_mime_rejected by done.
    eexists. split; [done|]. simpl. split_and!; done.
Qed.

(** The calls of the [try] block once the text was extracted: the loader,
    one summarizer call with the chain chosen from the text, and then
    synthesizer calls only. *)
Lemma generate_podcast_calls f file_path w text_content texts :
  text_extraction env f file_path = inr (text_content, texts) →
  ∃ rest,
    calls (generate_podcast env username user_id f file_path w).2 =
      calls w ++
      [loader_call f file_path;
       Summarize (select_chain_type text_content) (create_documents env texts)] ++
      rest ∧
    ∀ ct chunks, Summarize ct chunks ∉ rest.
Proof.
  intros Hload. unfold generate_podcast, mbind, M_bind.
  rewrite summarize_document_run with (1 := Hload). simpl.
  destruct (summarize_chain_run env _ _) as [msg|summary]; simpl.
  { exists []. split; [done|]. intros ??. apply not_elem_of_nil. }
  destruct (speech_create env summary (wav_path env username) voice)
    as [msg|[]] eqn:Hprimary.
  - rewrite synthesize_fallback with (1 := Hprimary). simpl.
    destruct (gTTS env summary) as [msg'|[]]; simpl.
    { eexists [_; _]. split; [by rewrite <- !(assoc_L (++))|].
      intros ??. rewrite !elem_of_cons, elem_of_nil. intuition discriminate. }
    destruct (gTTS_save env summary _) as [msg'|[]]; simpl;
      [|rewrite publish_run; simpl];
      (eexists [_; _; _]; split; [by rewrite <- !(assoc_L (++))|]);
      intros ??; rewrite !elem_of_cons, elem_of_nil; intuition discriminate.
  - rewrite synthesize_primary with (1 := Hprimary). simpl.
    rewrite publish_run. simpl.
    eexists [_]. split; [by rewrite <- !(assoc_L (++))|].
    intros ??. rewrite !elem_of_cons, elem_of_nil. intuition discriminate.
Qed.

Lemma try_generate_calls f file_path w :
  calls (try_generate env username user_id f file_path w).2 =
  calls (generate_podcast env username user_id f file_path w).2.
Proof.
  rewrite try_generate_run.
  by destruct (generate_podcast _ _ _ _ _ _) as [[[]|[]] w'].
Qed.

(** C8.  For an accepted upload with the button pressed whose text was
    extracted, the run makes exactly one summarizer call, right after the
    loader call, and its chain is the single-pass one exactly when the
    text has fewer than 5000 words and the map-reduce one exactly when it
    has 5000 words or more. *)
Theorem chain_selected_by_word_count f w text_content texts :
  accepted f →
  text_extraction env f (temp_file_path env f) = inr (text_content, texts) →
  ∃ chain rest,
    calls (show_main_app env username user_id (Some f) true w).2 =
      calls w ++
      [loader_call f (temp_file_path env f);
       Summarize chain (create_documents env texts)] ++ rest ∧
    (∀ ct chunks, Summarize ct chunks ∉ rest) ∧
    (chain = stuff ↔ word_count text_content < 5000) ∧
    (chain = map_reduce ↔ 5000 ≤ word_count text_content).
Proof.
  intros Hok Hload. rewrite run_accepted with (1 := Hok). simpl.
  rewrite try_generate_calls.
  edestruct generate_podcast_calls as (rest & -> & Hrest); [done|].
  exists (select_chain_type text_content), rest. simpl.
  split_and!; [done|done|..].
  - apply select_chain_type_stuff.
  - apply select_chain_type_map_reduce.
Qed.

(** C7.  When the primary synthesizer fails on the summary, the run calls
    the fallback once, on that summary, and saves to a path that differs
    from the primary's; when the fallback succeeds, that path is the one
    played, the one put in the session entry, and the one of the only
    insert made into the podcast table. *)
Theorem fallback_invoked_once f w text_content texts summary msg :
  accepted f →
  text_extraction env f (temp_file_path env f) = inr (text_content, texts) →
  summarize_chain_run env (select_chain_type text_content)
    (create_documents env texts) = inr summary →
  speech_create env summary (wav_path env username) voice = inl msg →
  ∃ w', show_main_app env username user_id (Some f) true w = (inr (), w') ∧
    calls w' =
      calls w ++
      [loader_call f (temp_file_path env f);
       Summarize (select_chain_type text_content) (create_documents env texts);
       GroqSpeech summary (wav_path env username) voice;
       GttsNew summary] ++
      match gTTS env summary with
      | inr _ => [GttsSave summary (mp3_path env username)]
      | inl _ => []
      end ∧
    mp3_path env username ≠ wav_path env username ∧
    (gTTS env summary = inr () →
     gTTS_save env summary (mp3_path env username) = inr () →
     let saved :=
       execute (sqlite env)
         (insert_podcast (CURRENT_TIMESTAMP (sqlite env)) user_id (name f)
            summary (mp3_path env username)) (db w) in
     db w' = match saved with inr d' => d' | inl _ => db w end ∧
     session_podcasts w' =
       session_podcasts w ++
       [{| s_title := name f; s_summary := summary;
           s_audio := mp3_path env username |}] ∧
     screen w' =
       screen w ++
       [st_success "✅ File uploaded successfully!";
        st_subheader "🧾 Summary:"; st_write summary;
        st_warning "⚠️ Groq TTS limit reached — using gTTS fallback.";
        st_audio (mp3_path env username);
        st_success "🎧 Podcast generated successfully!"] ++
       match saved with
       | inr _ => []
       | inl ex => [st_error ("Error saving podcast: " +:+ str_exn ex)]
       end).
Proof.
  intros Hok Hload Hsum Hprimary.
  rewrite run_accepted with (1 := Hok). simpl. rewrite try_generate_run.
  destruct (gTTS env summary) as [msg'|[]] eqn:Hnew;
    [|destruct (gTTS_save env summary (mp3_path env username))
        as [msg'|[]] eqn:Hsave].
  - unfold generate_podcast, mbind, M_bind.
    rewrite summarize_document_run with (1 := Hload). simpl. rewrite Hsum.
    rewrite synthesize_fallback with (1 := Hprimary). simpl. rewrite Hnew.
    eexists. split; [done|]. simpl.
    split_and!; [by rewrite <- ?(assoc_L (++))|apply mp3_path_changes|done].
  - unfold generate_podcast, mbind, M_bind.
    rewrite summarize_document_run with (1 := Hload). simpl. rewrite Hsum.
    rewrite synthesize_fallback with (1 := Hprimary). simpl. rewrite Hnew, Hsave.
    eexists. split; [done|]. simpl.
    split_and!; [by rewrite <- ?(assoc_L (++))|apply mp3_path_changes|done].
  - rewrite generate_podcast_synthesized
      with (1 := Hload) (2 := Hsum) (audio_path := mp3_path env username)
      by (by eapply synthesized_by_fallback).
    rewrite publish_run, Hprimary. simpl.
    eexists. split; [done|]. simpl.
    split_and!; [by rewrite <- ?(assoc_L (++))|apply mp3_path_changes|].
    intros _ _. split_and!; [done|done|].
    by rewrite <- ?(assoc_L (++)).
Qed.

Lemma generate_podcast_first_call f file_path w :
  ∃ rest, calls (generate_podcast env username user_id f file_path w).2 =
          calls w ++ loader_call f file_path :: rest.
Proof.
  destruct (text_extraction env f file_path) as [msg|[text_content texts]]
    eqn:Hload.
  - unfold generate_podcast, mbind, M_bind.
    rewrite summarize_document_extraction_fails with (1 := Hload).
    by exists [].
  - edestruct generate_podcast_calls as (rest & -> & _); [done|].
    eexists. simpl. done.
Qed.

(** C9, as the code has it.  An upload whose sniffed type is neither
    [application/pdf] nor [text/plain] stops the script at once, whatever
    its name: nothing is called, written or stored.  For an accepted
    upload the loader is chosen by the name alone: the PDF loader when
    the name ends with [.pdf], the plain read otherwise. *)
Theorem accepted_by_type_loaded_by_name f w :
  (magic_mime f ∉ allowed_mime →
   ∀ clicked, ∃ w',
     show_main_app env username user_id (Some f) clicked w
     = (inl StopException, w') ∧
     calls w' = calls w ∧ files w' = files w ∧ db w' = db w ∧
     session_podcasts w' = session_podcasts w) ∧
  (accepted f →
   ∃ rest,
     calls (show_main_app env username user_id (Some f) true w).2 =
     calls w ++
     (if endswith (name f) ".pdf"
      then LoadPdf (temp_file_path env f)
      else ReadText (temp_file_path env f)) :: rest).
Proof.
  split.
  - intros Hmime clicked. unfold show_main_app, mbind, M_bind at 1.
    rewrite check_mime_rejected by done. eexists. by split.
  - intros Hok. rewrite run_accepted with (1 := Hok). simpl.
    rewrite try_generate_calls.
    edestruct generate_podcast_first_call as (rest & ->). by exists rest.
Qed.

(** C10.  Once the audio was synthesized, by the primary synthesizer or
    by the fallback, the run ends normally with the entry added to the
    session list and success shown, and no generation error is shown;
    when the insert into the podcast table raises, the database is left
    as it was and the save error is shown last. *)
Theorem session_entry_despite_save_failure f w text_content texts summary
    audio_path :
  accepted f →
  text_extraction env f (temp_file_path env f) = inr (text_content, texts) →
  summarize_chain_run env (select_chain_type text_content)
    (create_documents env texts) = inr summary →
  synthesized env username summary audio_path →
  ∃ w',
    show_main_app env username user_id (Some f) true w = (inr (), w') ∧
    session_podcasts w' =
      session_podcasts w ++
      [{| s_title := name f; s_summary := summary; s_audio := audio_path |}] ∧
    st_success "🎧 Podcast generated successfully!" ∈ screen w' ∧
    (∀ m, st_error ("❌ Error generating podcast: " +:+ m) ∈ screen w' →
          st_error ("❌ Error generating podcast: " +:+ m) ∈ screen w) ∧
    (∀ ex,
       execute (sqlite env)
         (insert_podcast (CURRENT_TIMESTAMP (sqlite env)) user_id (name f)
            summary audio_path) (db w) = inl ex →
       db w' = db w ∧
       last (screen w') =
         Some (st_error ("Error saving podcast: " +:+ str_exn ex))) ∧
    (∀ d',
       execute (sqlite env)
         (insert_podcast (CURRENT_TIMESTAMP (sqlite env)) user_id (name f)
            summary audio_path) (db w) = inr d' →
       db w' = d').
Proof.
  intros Hok Hload Hsum Hsynth.
  rewrite run_accepted with (1 := Hok). simpl. rewrite try_generate_run.
  rewrite generate_podcast_synthesized with (1 := Hload) (2 := Hsum) (3 := Hsynth).
  rewrite publish_run. simpl.
  eexists. split; [done|]. simpl. split_and!; [done|..].
  - rewrite !elem_of_app, !elem_of_cons. auto.
  - intros m.
    rewrite !elem_of_app, !elem_of_cons, !elem_of_nil.
    intros [[[Hold|[Hm|[]]]|[Hm|[Hm|Hm]]]|[Hm|[Hm|Hm]]]; [done|try done..].
    + by destruct (speech_create _ _ _ _);
        [apply list_elem_of_singleton in Hm|apply elem_of_nil in Hm].
    + destruct (execute _ _ _); [|by apply elem_of_nil in Hm].
      apply list_elem_of_singleton in Hm. by injection Hm.
  - intros ex ->. split; [done|]. by rewrite last_app_cons.
  - by intros d' ->.
Qed.
End PodcastGeneratorRuns.

(** ** The theorems at sample inputs *)

Lemma endswith_append s suffix : endswith (s +:+ suffix) suffix = true.
Proof.
  induction s as [|c s IH].
  - change ("" +:+ suffix) with suffix.
    destruct suffix; [done|]. simpl. apply orb_true_iff. left.
    by apply bool_decide_eq_true.
  - change (String c s +:+ suffix) with (String c (s +:+ suffix)).
    simpl. rewrite IH. apply orb_true_r.
Qed.

Lemma sample_bcrypt_spec : @BcryptSpec sample_bcrypt.
Proof. split. intros password salt. apply endswith_append. Qed.

Lemma accepted_notes_txt : accepted notes_txt.
Proof.
  split; [|by vm_compute].
  unfold allowed_mime. rewrite !elem_of_cons. right. by left.
Qed.

Lemma accepted_renamed_text_file : accepted renamed_text_file.
Proof.
  split; [|by vm_compute].
  unfold allowed_mime. rewrite !elem_of_cons. right. by left.
Qed.

Lemma register_then_authenticate_sample :
  @register_user sample_bcrypt (quiet "2024-05-01 09:00:00") "N9qo8uLO"
    "alice" "s3cret-pw" empty_database
  = ((true, "Registration successful"), alice_database) ∧
  db_fault (quiet "2024-05-02 08:00:00") = None ∧
  ∃ row, row ∈ users alice_database ∧ u_username row = "alice" ∧
         (∀ row', row' ∈ users alice_database → u_username row' = "alice" →
                  row' = row) ∧
         @authenticate_user sample_bcrypt (quiet "2024-05-02 08:00:00")
           "alice" "s3cret-pw" alice_database
         = inr (true, Some (u_id row)).
Proof.
  split; [reflexivity|]. split; [reflexivity|].
  apply (@register_then_authenticate sample_bcrypt sample_bcrypt_spec
           (quiet "2024-05-01 09:00:00") "N9qo8uLO" "alice" "s3cret-pw"
           empty_database "Registration successful" alice_database
           (quiet "2024-05-02 08:00:00")); reflexivity.
Defined.

Lemma register_duplicate_username_sample :
  alice_row ∈ users alice_database ∧
  ∃ msg,
    @register_user sample_bcrypt (quiet "2024-05-02 08:00:00") "Xk2pQ7vR"
      (u_username alice_row) "another-pw" alice_database
    = ((false, msg), alice_database) ∧
    (db_fault (quiet "2024-05-02 08:00:00") = None →
     msg = "Username already exists").
Proof.
  assert (Hrow : alice_row ∈ users alice_database)
    by (simpl; apply list_elem_of_singleton; reflexivity).
  split; [exact Hrow|].
  exact (@register_duplicate_username sample_bcrypt
           (quiet "2024-05-02 08:00:00") "Xk2pQ7vR" "another-pw"
           alice_database alice_row Hrow).
Defined.

Lemma authenticate_wrong_password_sample :
  (∀ row, row ∈ users alice_database → u_username row = "alice" →
          @verify_password sample_bcrypt "s3cret-pv" (u_password row) = false) ∧
  (db_fault (quiet "2024-05-02 08:00:00") = None →
   @authenticate_user sample_bcrypt (quiet "2024-05-02 08:00:00")
     "alice" "s3cret-pv" alice_database = inr (false, None)) ∧
  (∀ id, @authenticate_user sample_bcrypt (quiet "2024-05-02 08:00:00")
           "alice" "s3cret-pv" alice_database ≠ inr (true, id)).
Proof.
  assert (Hwrong : ∀ row, row ∈ users alice_database → u_username row = "alice" →
            @verify_password sample_bcrypt "s3cret-pv" (u_password row) = false).
  { intros row Hrow _. simpl in Hrow.
    apply list_elem_of_singleton in Hrow. rewrite Hrow. reflexivity. }
  split; [exact Hwrong|].
  exact (@authenticate_wrong_password sample_bcrypt
           (quiet "2024-05-02 08:00:00") "alice" "s3cret-pv" alice_database
           Hwrong).
Defined.

Lemma get_user_podcasts_newest_first_sample :
  db_fault (quiet "2024-05-01 10:00:01") = None ∧
  ∃ l, get_user_podcasts (quiet "2024-05-01 10:00:01") 1 same_second_database
       = inr l ∧
       l ≡ₚ owned_by 1 same_second_database ∧
       newest_first l.
Proof.
  split; [reflexivity|].
  apply (get_user_podcasts_newest_first (quiet "2024-05-01 10:00:01") 1
           same_second_database). reflexivity.
Defined.

Lemma failed_step_aborts_cleanly_sample :
  accepted renamed_text_file ∧
  step_failure (sample_env (quiet "2024-05-01 10:00:00") (inr ())) "ann"
    renamed_text_file "/tmp/tmpk3v9x2ab.pdf" "EOF marker not found" ∧
  ∃ r w',
    show_main_app (sample_env (quiet "2024-05-01 10:00:00") (inr ()))
      "ann" 1 (Some renamed_text_file) true empty_world = (r, w') ∧
    ("/tmp/tmpk3v9x2ab.pdf" ∉ files w') ∧
    r = inr () ∧
    db w' = empty_database ∧
    session_podcasts w' = [] ∧
    last (screen w') =
      Some (st_error "❌ Error generating podcast: EOF marker not found").
Proof.
  assert (Hfail :
    step_failure (sample_env (quiet "2024-05-01 10:00:00") (inr ())) "ann"
      renamed_text_file "/tmp/tmpk3v9x2ab.pdf" "EOF marker not found")
    by (apply extraction_failure; reflexivity).
  split; [exact accepted_renamed_text_file|]. split; [exact Hfail|].
  destruct (failed_step_aborts_cleanly
              (sample_env (quiet "2024-05-01 10:00:00") (inr ())) "ann" 1
              renamed_text_file empty_world accepted_renamed_text_file)
    as (r & w' & Hrun & Hgone & Hfailed).
  destruct (Hfailed _ Hfail) as (Hr & Hdb & _ & Hsession & Hshown).
  exists r, w'. repeat split; assumption.
Defined.

Lemma oversized_upload_rejected_sample :
  10 * 1024 * 1024 < size_bytes big_pdf ∧
  ∃ w',
    show_main_app (sample_env (quiet "2024-05-01 10:00:00") (inr ()))
      "ann" 1 (Some big_pdf) true empty_world = (inl StopException, w') ∧
    calls w' = calls empty_world ∧
    db w' = db empty_world ∧
    session_podcasts w' = session_podcasts empty_world ∧
    files w' ⊆ files empty_world ∧
    (magic_mime big_pdf ∈ allowed_mime →
     (temp_file_path (sample_env (quiet "2024-05-01 10:00:00") (inr ()))
        big_pdf ∉ files w') ∧
     screen w' = screen empty_world ++
       [st_success "✅ File uploaded successfully!";
        st_error "❌ File too large! Please upload a file smaller than 10 MB."]).
Proof.
  split; [reflexivity|].
  apply (oversized_upload_rejected
           (sample_env (quiet "2024-05-01 10:00:00") (inr ())) "ann" 1
           big_pdf true empty_world).
  reflexivity.
Defined.

Lemma fallback_invoked_once_sample :
  ∃ w',
    show_main_app
      (sample_env (quiet "2024-05-01 10:00:00") (inl "rate limit exceeded"))
      "ann" 1 (Some notes_txt) true empty_world = (inr (), w') ∧
    calls w' =
      [ReadText "/tmp/tmpk3v9x2ab.txt";
       Summarize stuff ["hello brave new world"];
       GroqSpeech "A greeting." "audio_files/ann_20240501_100000.wav"
         "Celeste-PlayAI";
       GttsNew "A greeting.";
       GttsSave "A greeting." "audio_files/ann_20240501_100000.mp3"] ∧
    session_podcasts w' =
      [{| s_title := "notes.txt"; s_summary := "A greeting.";
          s_audio := "audio_files/ann_20240501_100000.mp3" |}] ∧
    podcasts (db w') =
      [{| p_id := 1; p_user_id := 1; p_title := "notes.txt";
          p_summary := "A greeting.";
          p_audio_path := "audio_files/ann_20240501_100000.mp3";
          p_created_at := "2024-05-01 10:00:00" |}].
Proof.
  destruct (fallback_invoked_once
              (sample_env (quiet "2024-05-01 10:00:00")
                 (inl "rate limit exceeded"))
              "ann" 1 notes_txt empty_world "hello brave new world"
              ["hello brave new world"] "A greeting." "rate limit exceeded"
              accepted_notes_txt eq_refl eq_refl eq_refl)
    as (w' & Hrun & Hcalls & _ & Hsaved).
  destruct (Hsaved eq_refl eq_refl) as (Hdb & Hsession & _).
  exists w'. split; [exact Hrun|]. split; [exact Hcalls|].
  split; [exact Hsession|]. rewrite Hdb. reflexivity.
Defined.

Lemma chain_selected_by_word_count_sample :
  word_count "hello brave new world" = 4 ∧
  ∃ chain rest,
    calls (show_main_app
             (sample_env (quiet "2024-05-01 10:00:00") (inr ()))
             "ann" 1 (Some notes_txt) true empty_world).2 =
      calls empty_world ++
      [loader_call notes_txt "/tmp/tmpk3v9x2ab.txt";
       Summarize chain ["hello brave new world"]] ++ rest ∧
    (∀ ct chunks, Summarize ct chunks ∉ rest) ∧
    (chain = stuff ↔ word_count "hello brave new world" < 5000) ∧
    (chain = map_reduce ↔ 5000 ≤ word_count "hello brave new world").
Proof.
  split; [reflexivity|].
  exact (chain_selected_by_word_count
           (sample_env (quiet "2024-05-01 10:00:00") (inr ())) "ann" 1
           notes_txt empty_world "hello brave new world"
           ["hello brave new world"] accepted_notes_txt eq_refl).
Defined.

(** C9, as stated, fails: a plain text file named [notes.pdf] passes the
    type check with the sniffed type [text/plain] and is then handed to
    the PDF loader, which the name alone selected. *)
Lemma renamed_text_file_goes_to_pdf_loader :
  magic_mime renamed_text_file = "text/plain" ∧
  calls (show_main_app
           (sample_env (quiet "2024-05-01 10:00:00") (inr ()))
           "ann" 1 (Some renamed_text_file) true empty_world).2
  = [LoadPdf "/tmp/tmpk3v9x2ab.pdf"].
Proof. split; [reflexivity|]. by vm_compute. Qed.

Lemma accepted_by_type_loaded_by_name_sample :
  accepted renamed_text_file ∧
  ∃ rest,
    calls (show_main_app
             (sample_env (quiet "2024-05-01 10:00:00") (inr ()))
             "ann" 1 (Some renamed_text_file) true empty_world).2 =
    calls empty_world ++ LoadPdf "/tmp/tmpk3v9x2ab.pdf" :: rest.
Proof.
  split; [exact accepted_renamed_text_file|].
  exact (proj2 (accepted_by_type_loaded_by_name
                  (sample_env (quiet "2024-05-01 10:00:00") (inr ()))
                  "ann" 1 renamed_text_file empty_world)
           accepted_renamed_text_file).
Defined.

Lemma session_entry_despite_save_failure_sample :
  ∃ w',
    show_main_app (sample_env locked (inr ())) "ann" 1 (Some notes_txt)
      true empty_world = (inr (), w') ∧
    session_podcasts w' =
      [{| s_title := "notes.txt"; s_summary := "A greeting.";
          s_audio := "audio_files/ann_20240501_100000.wav" |}] ∧
    st_success "🎧 Podcast generated successfully!" ∈ screen w' ∧
    podcasts (db w') = [] ∧
    last (screen w') =
      Some (st_error "Error saving podcast: database is locked").
Proof.
  destruct (session_entry_despite_save_failure
              (sample_env locked (inr ())) "ann" 1 notes_txt empty_world
              "hello brave new world" ["hello brave new world"] "A greeting."
              "audio_files/ann_20240501_100000.wav"
              accepted_notes_txt eq_refl eq_refl
              (synthesized_by_primary (sample_env locked (inr ())) "ann"
                 "A greeting." eq_refl))
    as (w' & Hrun & Hsession & Hsuccess & _ & Hfault & _).
  destruct (Hfault (OtherError "database is locked") eq_refl) as [Hdb Hlast].
  exists w'. split; [exact Hrun|]. split; [exact Hsession|].
  split; [exact Hsuccess|]. split; [rewrite Hdb; reflexivity|exact Hlast].
Defined.

(** * Further properties *)

(** ** The credential store *)

Lemma max_rowid_ge ids id : id ∈ ids → id ≤ max_rowid ids.
Proof.
  induction ids as [|x ids IH]; [by intros ?%elem_of_nil|].
  change (max_rowid (x :: ids)) with (Z.max x (max_rowid ids)).
  intros [->|Hin]%elem_of_cons; [apply Z.le_max_l|].
  etrans; [by apply IH|apply Z.le_max_r].
Qed.

Lemma select_user_app_old username d row seq :
  username ≠ u_username row ∨ username ∈ (u_username <$> users d) →
  select_user username
    {| users := users d ++ [row]; users_seq := seq;
       podcasts := podcasts d; podcasts_seq := podcasts_seq d |}
  = select_user username d.
Proof.
  intros Hcase. unfold select_user. simpl.
  destruct (list_find (λ r, u_username r = username) (users d))
    as [[i old]|] eqn:Hfind.
  - by rewrite list_find_app_l with (i := i) (x := old).
  - rewrite list_find_app_r by done. simpl.
    destruct Hcase as [Hne|Hin].
    + by rewrite decide_False.
    + apply select_user_None in Hin; [done|].
      unfold select_user. by rewrite Hfind.
Qed.

Lemma register_user_appends `{Bcrypt} e salt username password d msg d' :
  register_user e salt username password d = ((true, msg), d') →
  ∃ row, users d' = users d ++ [row] ∧
         u_username row = username ∧
         users_seq d < u_id row ∧
         users_seq d' = u_id row ∧
         (∀ old, old ∈ users d → u_id old < u_id row) ∧
         podcasts d' = podcasts d ∧ podcasts_seq d' = podcasts_seq d.
Proof.
  intros Hreg. apply register_user_true in Hreg. revert Hreg.
  unfold insert_user. case_bool_decide; [done|]. intros [= <-].
  eexists. split_and!; try done.
  - unfold autoincrement. cbn [u_id]. lia.
  - intros old Hold. unfold autoincrement. cbn [u_id].
    assert (u_id old ≤ max_rowid (u_id <$> users d)); [|lia].
    apply max_rowid_ge, list_elem_of_fmap. eauto.
Qed.

(** X1.  A successful registration appends one row and changes nothing
    else: the rows already there stay in place, the new row carries the
    given name, and its id is larger than the sequence value and than
    every id in the table. *)
Theorem register_user_fresh_id `{Bcrypt} e salt username password d msg d' :
  register_user e salt username password d = ((true, msg), d') →
  ∃ row, users d' = users d ++ [row] ∧
         u_username row = username ∧
         users_seq d < u_id row ∧
         users_seq d' = u_id row ∧
         (∀ old, old ∈ users d → u_id old < u_id row) ∧
         podcasts d' = podcasts d ∧ podcasts_seq d' = podcasts_seq d.
Proof. apply register_user_appends. Qed.

(** X2.  Registering a name, whether it works or not, changes the answer
    of [authenticate_user] for no other name and for no name that was
    already registered. *)
Theorem register_user_keeps_other_accounts `{Bcrypt}
    e salt username password d e' username' password' :
  username' ≠ username ∨ username' ∈ (u_username <$> users d) →
  authenticate_user e' username' password'
    (register_user e salt username password d).2
  = authenticate_user e' username' password' d.
Proof.
  intros Hcase.
  destruct (register_user e salt username password d) as [[[] msg] d'] eqn:Hreg.
  - apply register_user_true, insert_user_inr in Hreg
      as (Hfresh & row & Hname & _ & ->).
    unfold authenticate_user. simpl. rewrite select_user_app_old; [done|].
    rewrite Hname. destruct Hcase; auto.
  - revert Hreg. unfold register_user.
    destruct (execute _ _ _) as [[]|]; intros Heq; by simplify_eq.
Qed.

Lemma authenticate_user_true `{Bcrypt} e username password d user_id :
  authenticate_user e username password d = inr (true, user_id) →
  ∃ row, row ∈ users d ∧ u_username row = username ∧
         user_id = Some (u_id row) ∧
         verify_password password (u_password row) = true.
Proof.
  unfold authenticate_user. destruct (db_fault e); [done|].
  destruct (select_user username d) as [[id hashed]|] eqn:Hsel; [|done].
  destruct (verify_password password hashed) eqn:Hverify; [|done].
  intros [= <-].
  apply select_user_Some in Hsel as (row & ? & ? & <- & <-). eauto.
Qed.

Lemma authenticate_user_false `{Bcrypt} e username password d user_id :
  authenticate_user e username password d = inr (false, user_id) →
  user_id = None.
Proof.
  unfold authenticate_user. destruct (db_fault e); [done|].
  destruct (select_user username d) as [[id hashed]|]; [|by intros [= <-]].
  destruct (verify_password password hashed); [done|]. by intros [= <-].
Qed.

(** X3.  When [authenticate_user] reports success, the id it returns is
    the id of a stored row with that username whose hash verifies the
    password; it never reports success without an id. *)
Theorem authenticate_user_sound `{Bcrypt} e username password d user_id :
  authenticate_user e username password d = inr (true, user_id) →
  ∃ row, row ∈ users d ∧ u_username row = username ∧
         user_id = Some (u_id row) ∧
         verify_password password (u_password row) = true.
Proof. apply authenticate_user_true. Qed.

Lemma register_user_fresh_name `{Bcrypt} e salt username password d :
  db_fault e = None →
  username ∉ (u_username <$> users d) →
  ∃ d', register_user e salt username password d
        = ((true, "Registration successful"), d').
Proof.
  intros He Hfresh. unfold register_user, execute, insert_user.
  rewrite He, bool_decide_false by done. eauto.
Qed.

Lemma register_then_select `{BcryptSpec} e salt username password d msg d' :
  register_user e salt username password d = ((true, msg), d') →
  ∃ row, row ∈ users d' ∧ u_username row = username ∧
         select_user username d' = Some (u_id row, u_password row) ∧
         verify_password password (u_password row) = true.
Proof.
  intros Hreg. apply register_user_true, insert_user_inr in Hreg
    as (Hfresh & row & Hname & Hpw & ->).
  exists row. split_and!.
  - simpl. apply elem_of_app. right. by apply list_elem_of_singleton.
  - done.
  - by apply select_user_new_row.
  - unfold verify_password. rewrite Hpw.
    unfold hash_password, decode_utf8, encode_utf8.
    apply bcrypt_checkpw_hashpw.
Qed.

(** ** The podcast record store *)

Lemma save_podcast_run e user_id title summary audio_path w :
  db_fault e = None →
  save_podcast e user_id title summary audio_path w =
  (inr true,
   {| db := {| users := users (db w); users_seq := users_seq (db w);
               podcasts := podcasts (db w) ++
                 [{| p_id := autoincrement (podcasts_seq (db w))
                               (p_id <$> podcasts (db w));
                     p_user_id := user_id; p_title := title;
                     p_summary := summary; p_audio_path := audio_path;
                     p_created_at := CURRENT_TIMESTAMP e |}];
               podcasts_seq := autoincrement (podcasts_seq (db w))
                                 (p_id <$> podcasts (db w)) |};
      files := files w; session_podcasts := session_podcasts w;
      screen := screen w; calls := calls w |}).
Proof. intros He. unfold save_podcast, execute, insert_podcast. by rewrite He. Qed.


(** X4.  After [save_podcast] on a database that answers, the listing of
    that user is the listing from before together with one new record:
    the given title, summary and audio path, created at the database's
    current time; the users table is as it was. *)
Theorem save_podcast_then_list e e' user_id title summary audio_path w :
  db_fault e = None →
  db_fault e' = None →
  ∃ w' before after,
    save_podcast e user_id title summary audio_path w = (inr true, w') ∧
    get_user_podcasts e' user_id (db w) = inr before ∧
    get_user_podcasts e' user_id (db w') = inr after ∧
    after ≡ₚ {| title := title; summary := summary; audio := audio_path;
                created_at := CURRENT_TIMESTAMP e |} :: before ∧
    users (db w') = users (db w).
Proof.
  intros He He'. rewrite save_podcast_run by done.
  unfold get_user_podcasts. rewrite He'. do 3 eexists.
  split_and!; [done|done|done| |done].
  unfold select_podcasts. rewrite !merge_sort_Permutation.
  cbn [db podcasts]. rewrite filter_app, fmap_app.
  rewrite filter_cons_True by done.
  by rewrite filter_nil, (comm (++)).
Qed.

(** X5.  [save_podcast] for one user, whether it works or not, leaves the
    listing of every other user exactly as it was. *)
Theorem save_podcast_other_users e e' user_id other title summary audio_path w :
  other ≠ user_id →
  get_user_podcasts e' other
    (db (save_podcast e user_id title summary audio_path w).2)
  = get_user_podcasts e' other (db w).
Proof.
  intros Hother. destruct (db_fault e) as [fault|] eqn:He.
  - unfold save_podcast, execute. by rewrite He.
  - rewrite save_podcast_run by done.
    unfold get_user_podcasts, select_podcasts. cbn [snd db podcasts].
    rewrite filter_app, filter_cons_False by (simpl; congruence).
    by rewrite filter_nil, (right_id_L [] (++)).
Qed.


(** ** API key validation *)

Lemma validate_api_key_callback_frame clients api_key s :
  ss_logged_in (validate_api_key_callback clients api_key s) = ss_logged_in s ∧
  ss_username (validate_api_key_callback clients api_key s) = ss_username s ∧
  ss_user_id (validate_api_key_callback clients api_key s) = ss_user_id s.
Proof.
  unfold validate_api_key_callback.
  destruct (_ || _); [done|]. by destruct (clients api_key).
Qed.

(** X7.  After the callback the key counts as validated exactly when it
    has at least 10 characters and the clients could be built with it,
    and then it is the key stored; a key that is too short leaves the
    stored key as it was, a key that the clients reject clears it; the
    login part of the session is never touched. *)
Theorem validate_api_key_callback_outcome clients api_key s :
  let s' := validate_api_key_callback clients api_key s in
  (ss_api_key_validated s' = true ↔
   (10 ≤ len api_key)%nat ∧ clients api_key = inr ()) ∧
  (ss_api_key_validated s' = true → ss_groq_api_key s' = api_key) ∧
  ((len api_key < 10)%nat → ss_groq_api_key s' = ss_groq_api_key s) ∧
  ((10 ≤ len api_key)%nat → clients api_key ≠ inr () →
   ss_groq_api_key s' = "") ∧
  ss_logged_in s' = ss_logged_in s ∧ ss_username s' = ss_username s ∧
  ss_user_id s' = ss_user_id s ∧ ss_mes s' = ss_mes s.
Proof.
  unfold validate_api_key_callback.
  assert (Hnil : len "" = 0%nat) by done.
  destruct (bool_decide (api_key = "")) eqn:Hempty; simpl.
  { apply bool_decide_eq_true in Hempty. subst api_key. rewrite Hnil.
    split_and!; try done; try lia; try (split; [done|]; intros [? _]; lia). }
  destruct (len api_key <? 10)%nat eqn:Hshort.
  { apply Nat.ltb_lt in Hshort.
    split_and!; try done; try lia; try (split; [done|]; intros [? _]; lia). }
  apply Nat.ltb_ge in Hshort.
  destruct (clients api_key) as [msg|[]]; simpl;
    split_and!; try done; try lia; try (split; [done|]; by intros [_ ?]).
Qed.

(** X8.  The status line that the sidebar shows after the callback
    matches its outcome: the success box when the key was validated, the
    warning when the key is too short, the error box when the clients
    rejected it. *)
Theorem validation_message_display clients api_key a :
  page (show_validation_message
          (set_session
             (validate_api_key_callback clients api_key (session a)) a))
  = page a ++
    [if (len api_key <? 10)%nat
     then sidebar_warning "⚠️ API key too short"
     else match clients api_key with
          | inr _ => sidebar_success "✅ API Key validated successfully!"
          | inl _ => sidebar_error "❌ Invalid API Key"
          end].
Proof.
  unfold validate_api_key_callback.
  destruct (bool_decide (api_key = "")) eqn:Hempty; simpl.
  { apply bool_decide_eq_true in Hempty. by subst api_key. }
  destruct (len api_key <? 10)%nat; [done|].
  by destruct (clients api_key).
Qed.

(** ** The login and registration page *)

Lemma len_nonempty s : (0 < len s)%nat → s ≠ "".
Proof. intros Hlen ->. change (len "") with 0%nat in Hlen. lia. Qed.

(** X9.  A sign-up with a username of fewer than 3 characters, a
    password of fewer than 6 characters, or a confirmation that differs
    from the password shows one error and changes neither the database
    nor the session: no registration is tried. *)
Theorem register_form_invalid `{Bcrypt} e salt form a :
  (len (new_username form) < 3)%nat ∨
  (len (new_password form) < 6)%nat ∨
  new_password form ≠ confirm_password form →
  ∃ reason, register_form e salt form a = emit (page_error reason) a.
Proof.
  intros Hbad. unfold register_form.
  destruct (_ || _); [eauto|].
  destruct (len (new_username form) <? 3)%nat eqn:Hname; [eauto|].
  destruct (len (new_password form) <? 6)%nat eqn:Hpw; [eauto|].
  apply Nat.ltb_ge in Hname, Hpw.
  destruct Hbad as [?|[?|Hdiff]]; [lia..|].
  rewrite bool_decide_false by done. simpl. eauto.
Qed.

Lemma login_form_cases `{Bcrypt} e form a r a' :
  login_form e form a = (r, a') →
  db (world a') = db (world a) ∧
  ((r = Rerun ∧
    ss_logged_in (session a') = true ∧
    ss_username (session a') = username_input form ∧
    (∃ row, row ∈ users (db (world a)) ∧
            u_username row = username_input form ∧
            ss_user_id (session a') = Some (u_id row)) ∧
    ss_mes (session a') = [greeting] ∧
    session_podcasts (world a') = []) ∨
   (r ≠ Rerun ∧ session a' = session a ∧
    session_podcasts (world a') = session_podcasts (world a))).
Proof.
  unfold login_form.
  destruct (authenticate_user _ _ _ _) as [ex|[[] user_id]] eqn:Hauth;
    intros [= <- <-]; simpl; (split; [done|]).
  - right. done.
  - left. apply authenticate_user_true in Hauth as (row & ? & ? & -> & _).
    split_and!; eauto.
  - right. done.
Qed.

(** X10.  A run of the login form never changes the database.  Either it
    logs in: the script reruns, the session carries the submitted name
    and the id of a stored row with that name, the chat history is the
    greeting alone and the session list is empty; or the session and the
    session list are as before. *)
Theorem login_form_effect `{Bcrypt} e form a r a' :
  login_form e form a = (r, a') →
  db (world a') = db (world a) ∧
  ((r = Rerun ∧
    ss_logged_in (session a') = true ∧
    ss_username (session a') = username_input form ∧
    (∃ row, row ∈ users (db (world a)) ∧
            u_username row = username_input form ∧
            ss_user_id (session a') = Some (u_id row)) ∧
    ss_mes (session a') = [greeting] ∧
    session_podcasts (world a') = []) ∨
   (r ≠ Rerun ∧ session a' = session a ∧
    session_podcasts (world a') = session_podcasts (world a))).
Proof. apply login_form_cases. Qed.

(** X11.  Sign-up and login compose through the forms: after a valid
    sign-up form with a name that is not taken, on a database that
    answers, the session is still as it was, and a login form with the
    same name and password then logs in with the id of the new row. *)
Theorem sign_up_then_login `{BcryptSpec} e salt e' salt' form a :
  (3 ≤ len (new_username form))%nat →
  (6 ≤ len (new_password form))%nat →
  new_password form = confirm_password form →
  new_username form ∉ (u_username <$> users (db (world a))) →
  db_fault e = None →
  db_fault e' = None →
  ∃ a1 a2 row,
    show_auth_page e salt None (Some form) a = (Finished, a1) ∧
    session a1 = session a ∧
    show_auth_page e' salt'
      (Some {| username_input := new_username form;
               password_input := new_password form |}) None a1
    = (Rerun, a2) ∧
    row ∈ users (db (world a2)) ∧
    u_username row = new_username form ∧
    ss_logged_in (session a2) = true ∧
    ss_username (session a2) = new_username form ∧
    ss_user_id (session a2) = Some (u_id row).
Proof.
  intros Hname Hpw Hconfirm Hfresh He He'.
  destruct (register_user_fresh_name e salt (new_username form)
              (new_password form) (db (world a)) He Hfresh) as [d' Hreg].
  destruct (register_then_select _ _ _ _ _ _ _ Hreg)
    as (row & Hrow & Hrowname & Hsel & Hverify).
  assert (Hsignup : register_form e salt form a =
            emit (page_success "✅ Registration successful Please login now!")
              (set_world (set_db d' (world a)) a)).
  { unfold register_form.
    rewrite !bool_decide_false by (apply len_nonempty; lia). simpl.
    destruct (Nat.ltb_ge (len (new_username form)) 3) as [_ ->]; [|done].
    destruct (Nat.ltb_ge (len (new_password form)) 6) as [_ ->]; [|done].
    rewrite bool_decide_true by done. simpl. by rewrite Hreg. }
  eexists _, _, row. unfold show_auth_page at 1. rewrite Hsignup.
  split; [done|]. split; [done|].
  unfold show_auth_page, login_form, authenticate_user. simpl.
  rewrite He', Hsel, Hverify. simpl. split_and!; done.
Qed.

(** ** What a run of the generator can change *)

Section GeneratorFrame.
Context (env : Env) (username : string) (user_id : Z).

Lemma publish_frame f summary audio_path w0 w :
  db w0 = db w → session_podcasts w0 = session_podcasts w →
  at_most_one_podcast user_id (name f) w
    (publish env user_id f summary audio_path w0).2.
Proof.
  intros Hdb Hsession. rewrite publish_run. simpl.
  unfold execute, insert_podcast. rewrite Hdb, Hsession.
  destruct (db_fault (sqlite env)); simpl.
  - split_and!; [done|done|by left|]. right. by eexists.
  - split_and!; [done|done| |].
    + right. eexists. by split_and!.
    + right. by eexists.
Qed.

Lemma generate_podcast_frame f file_path w :
  at_most_one_podcast user_id (name f) w
    (generate_podcast env username user_id f file_path w).2.
Proof.
  assert (Hsame : ∀ w', db w' = db w →
            session_podcasts w' = session_podcasts w →
            at_most_one_podcast user_id (name f) w w').
  { intros w' Hdb Hsession. unfold at_most_one_podcast.
    rewrite Hdb, Hsession. split_and!; auto. }
  unfold generate_podcast, mbind, M_bind.
  destruct (text_extraction env f file_path) as [msg|[text_content texts]]
    eqn:Hload.
  { rewrite summarize_document_extraction_fails with (1 := Hload).
    by apply Hsame. }
  rewrite summarize_document_run with (1 := Hload). simpl.
  destruct (summarize_chain_run env _ _) as [msg|summary]; simpl.
  { by apply Hsame. }
  destruct (speech_create env summary (wav_path env username) voice)
    as [msg|[]] eqn:Hprimary.
  - rewrite synthesize_fallback with (1 := Hprimary). simpl.
    destruct (gTTS env summary) as [msg'|[]]; simpl; [by apply Hsame|].
    destruct (gTTS_save env summary _) as [msg'|[]]; simpl;
      [by apply Hsame|].
    by apply publish_frame.
  - rewrite synthesize_primary with (1 := Hprimary). simpl.
    by apply publish_frame.
Qed.

Lemma run_oversized f clicked w :
  magic_mime f ∈ allowed_mime →
  Qle_bool (file_size_mb f) 10 = false →
  show_main_app env username user_id (Some f) clicked w =
  (inl StopException,
   {| db := db w;
      files := ({[ temp_file_path env f ]} ∪ files w) ∖ {[ temp_file_path env f ]};
      session_podcasts := session_podcasts w;
      screen := screen w ++
        [st_success "✅ File uploaded successfully!";
         st_error "❌ File too large! Please upload a file smaller than 10 MB."];
      calls := calls w |}).
Proof.
  intros Hmime Hbig. unfold show_main_app, mbind, M_bind at 1.
  rewrite check_mime_accepted by done.
  unfold process_upload, NamedTemporaryFile, os_unlink.
  fold (temp_file_path env f). rewrite Hbig. unfold_M. simpl.
  rewrite bool_decide_true by (apply elem_of_union_l; by apply elem_of_singleton).
  by rewrite <- (assoc_L (++)).
Qed.

(** The three ways a run on an upload goes. *)
Lemma show_main_app_cases f clicked w :
  ((magic_mime f ∉ allowed_mime) ∧
   show_main_app env username user_id (Some f) clicked w =
   (inl StopException,
    {| db := db w; files := files w; session_podcasts := session_podcasts w;
       screen := screen w ++
         [st_error "❌ Invalid file type. Please upload a valid PDF or TXT file."];
       calls := calls w |})) ∨
  (magic_mime f ∈ allowed_mime ∧ Qle_bool (file_size_mb f) 10 = false) ∨
  accepted f.
Proof.
  destruct (decide (magic_mime f ∈ allowed_mime)) as [Hmime|Hmime].
  - destruct (Qle_bool (file_size_mb f) 10) eqn:Hsize; [|by right; left].
    right. right. split; [done|]. by apply size_check.
  - left. split; [done|]. unfold show_main_app, mbind, M_bind at 1.
    by rewrite check_mime_rejected.
Qed.

Lemma show_main_app_changes f clicked w :
  at_most_one_podcast user_id (name f) w
    (show_main_app env username user_id (Some f) clicked w).2.
Proof.
  assert (Hsame : ∀ w', db w' = db w →
            session_podcasts w' = session_podcasts w →
            at_most_one_podcast user_id (name f) w w').
  { intros w' Hdb Hsession. unfold at_most_one_podcast.
    rewrite Hdb, Hsession. split_and!; auto. }
  destruct (show_main_app_cases f clicked w) as [[_ ->]|[[Hmime Hbig]|Hok]].
  - by apply Hsame.
  - rewrite run_oversized by done. by apply Hsame.
  - rewrite run_accepted with (1 := Hok). simpl.
    destruct clicked; [|by apply Hsame].
    rewrite try_generate_run.
    pose proof (generate_podcast_frame f (temp_file_path env f)
      {| db := db w; files := {[ temp_file_path env f ]} ∪ files w;
         session_podcasts := session_podcasts w;
         screen := screen w ++ [st_success "✅ File uploaded successfully!"];
         calls := calls w |}) as Hframe.
    destruct (generate_podcast _ _ _ _ _ _) as [[[]|[]] w']; exact Hframe.
Qed.
(** X12.  Whatever the upload, the click and the collaborators do, a run
    of the generator leaves the users table alone and stores at most one
    podcast row; a stored row is owned by the current user, carries the
    name of the upload as its title, and comes with the matching entry at
    the end of the session list, which itself grows by at most one
    entry. *)
Theorem show_main_app_frame f clicked w :
  at_most_one_podcast user_id (name f) w
    (show_main_app env username user_id (Some f) clicked w).2.
Proof. apply show_main_app_changes. Qed.
End GeneratorFrame.

(** ** The main page *)

Lemma show_validation_message_frame a :
  session (show_validation_message a) = session a ∧
  world (show_validation_message a) = world a ∧
  ∃ shown, page (show_validation_message a) = page a ++ shown.
Proof.
  unfold show_validation_message.
  case_bool_decide; [by split_and!; [..|exists []; rewrite (right_id_L [] (++))]|].
  destruct (str_contains "✅" _); [by split_and!; [..|eexists]|].
  destruct (str_contains "❌" _); by split_and!; [..|eexists].
Qed.

Lemma show_session_podcasts_frame pods i a :
  session (show_session_podcasts i pods a) = session a ∧
  world (show_session_podcasts i pods a) = world a.
Proof.
  revert i a. induction pods as [|pod pods IH]; intros i a; [done|].
  simpl. destruct (IH (S i) (show_session_podcast i pod a)) as [-> ->].
  unfold show_session_podcast. by case_bool_decide.
Qed.

Lemma show_history_frame pods i a :
  session (show_history i pods a) = session a ∧
  world (show_history i pods a) = world a.
Proof.
  revert i a. induction pods as [|pod pods IH]; intros i a; [done|].
  simpl. destruct (IH (S i) (show_history_podcast i pod a)) as [-> ->].
  unfold show_history_podcast. by case_bool_decide.
Qed.

Lemma chat_history_frame msgs a :
  session (foldl (λ a msg, emit (chat_message (role msg) (content msg)) a) a msgs)
  = session a ∧
  world (foldl (λ a msg, emit (chat_message (role msg) (content msg)) a) a msgs)
  = world a.
Proof.
  revert a. induction msgs as [|msg msgs IH]; intros a; [done|].
  simpl. by destruct (IH (emit (chat_message (role msg) (content msg)) a))
    as [-> ->].
Qed.

Section MainPageFacts.
Context (env : PageEnv) (username : string) (user_id : Z).

Lemma research_assistant_frame prompt a :
  world (research_assistant env prompt a) = world a ∧
  ss_logged_in (session (research_assistant env prompt a))
    = ss_logged_in (session a) ∧
  ss_username (session (research_assistant env prompt a))
    = ss_username (session a) ∧
  ss_user_id (session (research_assistant env prompt a))
    = ss_user_id (session a) ∧
  ss_groq_api_key (session (research_assistant env prompt a))
    = ss_groq_api_key (session a) ∧
  ss_api_key_validated (session (research_assistant env prompt a))
    = ss_api_key_validated (session a) ∧
  ss_mes (session (research_assistant env prompt a)) =
    ss_mes (session a) ++
    match prompt with
    | None => []
    | Some p =>
        if bool_decide (p = "") then []
        else [{| role := "user"; content := p |};
              {| role := "ai";
                 content := agent_reply (agent_invoke env p) |}]
    end.
Proof.
  unfold research_assistant.
  destruct (chat_history_frame (ss_mes (session a)) a) as [Hs Hw].
  destruct prompt as [[|c p]|]; simpl; rewrite ?Hs, ?Hw;
    rewrite <- ?(assoc_L (++)), ?(right_id_L [] (++)); by split_and!.
Qed.

Lemma podcast_history_frame a r a' :
  podcast_history env user_id a = (r, a') →
  session a' = session a ∧ world a' = world a.
Proof.
  unfold podcast_history.
  destruct (get_user_podcasts _ _ _) as [ex|[|pod pods]]; intros [= <- <-];
    [done|done|].
  apply (show_history_frame (pod :: pods)).
Qed.

Lemma main_page_gate_run i a :
  in_logout i = false →
  ss_api_key_validated (session a) = false →
  ∃ a', show_main_app_page env username user_id i a = (Finished, a') ∧
        session a' = session a ∧ world a' = world a.
Proof.
  intros Hlogout Hkey. unfold show_main_app_page. rewrite Hlogout.
  destruct (show_validation_message_frame
              (emit (sidebar_success ("👤 Logged in as **" +:+ username +:+ "**")) a))
    as (Hs & Hw & _).
  rewrite Hs. simpl. rewrite Hkey. simpl.
  eexists. split; [done|]. simpl. by rewrite Hs, Hw.
Qed.

(** X13.  While no key is validated, a run of the main page without the
    logout button ends after the notice: the session and the world
    (database, files, session list, collaborator calls) are as before,
    whatever was uploaded, clicked or typed. *)
Theorem main_page_gated i a :
  in_logout i = false →
  ss_api_key_validated (session a) = false →
  ∃ a', show_main_app_page env username user_id i a = (Finished, a') ∧
        session a' = session a ∧ world a' = world a.
Proof. apply main_page_gate_run. Qed.

(** X14.  The logout button puts the session back to its initial values,
    the API key included, empties the session list and reruns the script;
    the database, the files and the call log are not touched, whatever
    else was uploaded, clicked or typed. *)
Theorem main_page_logout i a :
  in_logout i = true →
  ∃ a', show_main_app_page env username user_id i a = (Rerun, a') ∧
        session a' = initial_session ∧
        session_podcasts (world a') = [] ∧
        db (world a') = db (world a) ∧
        files (world a') = files (world a) ∧
        calls (world a') = calls (world a).
Proof.
  intros Hlogout. unfold show_main_app_page. rewrite Hlogout.
  destruct (show_validation_message_frame
              (emit (sidebar_success ("👤 Logged in as **" +:+ username +:+ "**")) a))
    as (_ & Hw & _).
  eexists. split; [done|]. unfold log_out. simpl. by rewrite Hw.
Qed.
End MainPageFacts.

Section MainPageRuns.
Context (env : PageEnv) (username : string) (user_id : Z).

(** With a validated key, working services and no logout the page shows
    its tabs. *)
Lemma main_page_tabs i a :
  in_logout i = false →
  ss_api_key_validated (session a) = true →
  init_services env = inr () →
  show_main_app_page env username user_id i a =
  let a0 := show_validation_message
              (emit (sidebar_success ("👤 Logged in as **" +:+ username +:+ "**")) a) in
  match podcast_generator_tab env username user_id i a0 with
  | (Finished, a1) =>
      podcast_history env user_id (research_assistant env (in_prompt i) a1)
  | (r, a1) => (r, a1)
  end.
Proof.
  intros Hlogout Hkey Hservices. unfold show_main_app_page.
  rewrite Hlogout, Hservices.
  destruct (show_validation_message_frame
              (emit (sidebar_success ("👤 Logged in as **" +:+ username +:+ "**")) a))
    as (Hs & _ & _).
  rewrite Hs. simpl. by rewrite Hkey.
Qed.

Lemma show_main_app_not_accepted f clicked w :
  ¬ accepted f →
  ∃ w', show_main_app (pipeline env) username user_id (Some f) clicked w
        = (inl StopException, w') ∧
        db w' = db w ∧ calls w' = calls w ∧
        session_podcasts w' = session_podcasts w.
Proof.
  intros Hbad.
  destruct (show_main_app_cases (pipeline env) username user_id f clicked w)
    as [[_ ->]|[[Hmime Hbig]|Hok]]; [eauto| |done].
  rewrite run_oversized by done. eauto.
Qed.

(** X15.  An upload that is not accepted (wrong sniffed type, or more
    than 10 MB) stops the whole page, not only the generator: nothing
    but the sidebar is rendered, a prompt typed in the same run is not
    added to the chat history, and no collaborator is called. *)
Theorem main_page_stopped_by_upload i a f :
  in_logout i = false →
  ss_api_key_validated (session a) = true →
  init_services env = inr () →
  in_upload i = Some f →
  ¬ accepted f →
  ∃ a', show_main_app_page env username user_id i a = (Stopped, a') ∧
        session a' = session a ∧
        db (world a') = db (world a) ∧
        calls (world a') = calls (world a) ∧
        page a' =
          page (show_validation_message
                  (emit (sidebar_success
                           ("👤 Logged in as **" +:+ username +:+ "**")) a)).
Proof.
  intros Hlogout Hkey Hservices Hupload Hbad.
  rewrite main_page_tabs by done. simpl.
  destruct (show_validation_message_frame
              (emit (sidebar_success ("👤 Logged in as **" +:+ username +:+ "**")) a))
    as (Hs & Hw & _).
  unfold podcast_generator_tab. rewrite Hupload.
  edestruct show_main_app_not_accepted as (w' & -> & Hdb & Hcalls & _); [done|].
  eexists. split; [done|]. simpl. by rewrite Hs, Hdb, Hcalls, Hw.
Qed.




Lemma show_history_page pods i a :
  ∃ shown, page (show_history i pods a) = page a ++ shown.
Proof.
  revert i a. induction pods as [|pod pods IH]; intros i a.
  - exists []. by rewrite (right_id_L [] (++)).
  - simpl. destruct (IH (S i) (show_history_podcast i pod a)) as [shown ->].
    unfold show_history_podcast. case_bool_decide; simpl;
      rewrite <- !(assoc_L (++)); by eexists.
Qed.

(** Every record of the list gets its expander, numbered from [i + 1]. *)
Lemma show_history_expander pods i a pod :
  pod ∈ pods →
  ∃ n : nat,
    expander ("🎧 " +:+ pretty n +:+ ". " +:+ title pod +:+ " - " +:+
              str_take 10 (created_at pod))
    ∈ page (show_history i pods a).
Proof.
  revert i a. induction pods as [|pod' pods IH]; intros i a;
    [by intros ?%elem_of_nil|].
  intros [->|Hin]%elem_of_cons; [|by apply IH].
  exists (i + 1)%nat. simpl.
  destruct (show_history_page pods (S i) (show_history_podcast i pod' a))
    as [shown ->].
  apply elem_of_app. left.
  unfold show_history_podcast. case_bool_decide; simpl;
    rewrite !elem_of_app, !elem_of_cons; auto 10.
Qed.

Lemma show_history_summary pods i a pod :
  pod ∈ pods → page_write (summary pod) ∈ page (show_history i pods a).
Proof.
  revert i a. induction pods as [|pod' pods IH]; intros i a;
    [by intros ?%elem_of_nil|].
  intros [->|Hin]%elem_of_cons; [|by apply IH].
  simpl.
  destruct (show_history_page pods (S i) (show_history_podcast i pod' a))
    as [shown ->].
  apply elem_of_app. left.
  unfold show_history_podcast. case_bool_decide; simpl;
    rewrite !elem_of_app, !elem_of_cons; auto 10.
Qed.



Lemma run_synthesized f w text_content texts summary audio_path :
  accepted f →
  text_extraction (pipeline env) f (temp_file_path (pipeline env) f)
    = inr (text_content, texts) →
  summarize_chain_run (pipeline env) (select_chain_type text_content)
    (create_documents (pipeline env) texts) = inr summary →
  synthesized (pipeline env) username summary audio_path →
  db_fault (sqlite (pipeline env)) = None →
  ∃ w', show_main_app (pipeline env) username user_id (Some f) true w
        = (inr (), w') ∧
        ∃ id, podcasts (db w') =
              podcasts (db w) ++
              [{| p_id := id; p_user_id := user_id; p_title := name f;
                  p_summary := summary; p_audio_path := audio_path;
                  p_created_at := CURRENT_TIMESTAMP (sqlite (pipeline env)) |}].
Proof.
  intros Hok Hload Hsum Hsynth Hdb.
  rewrite run_accepted with (1 := Hok). simpl. rewrite try_generate_run.
  rewrite generate_podcast_synthesized
    with (1 := Hload) (2 := Hsum) (3 := Hsynth).
  rewrite publish_run. simpl. unfold execute, insert_podcast. rewrite Hdb.
  eexists. split; [done|]. simpl. by eexists.
Qed.

(** X19.  A podcast generated in a run is already listed by the history
    tab of the same run: when the generation succeeds and the database
    answers, the page ends normally and shows an expander with the file
    name and the date of the insert. *)
Theorem generated_podcast_in_history i a f text_content texts summary
    audio_path :
  in_logout i = false →
  ss_api_key_validated (session a) = true →
  init_services env = inr () →
  in_upload i = Some f →
  in_generate i = true →
  accepted f →
  text_extraction (pipeline env) f (temp_file_path (pipeline env) f)
    = inr (text_content, texts) →
  summarize_chain_run (pipeline env) (select_chain_type text_content)
    (create_documents (pipeline env) texts) = inr summary →
  synthesized (pipeline env) username summary audio_path →
  db_fault (sqlite (pipeline env)) = None →
  db_fault (history_db env) = None →
  ∃ a' (n : nat),
    show_main_app_page env username user_id i a = (Finished, a') ∧
    expander ("🎧 " +:+ pretty n +:+ ". " +:+ name f +:+ " - " +:+
              str_take 10 (CURRENT_TIMESTAMP (sqlite (pipeline env))))
    ∈ page a' ∧
    page_write summary ∈ page a'.
Proof.
  intros Hlogout Hkey Hservices Hupload Hclick Hok Hload Hsum Hsynth Hdb Hhist.
  rewrite main_page_tabs by done. simpl.
  set (a0 := show_validation_message
               (emit (sidebar_success ("👤 Logged in as **" +:+ username +:+ "**")) a)).
  unfold podcast_generator_tab. rewrite Hupload, Hclick.
  destruct (run_synthesized f (world a0) _ _ _ _ Hok Hload Hsum Hsynth Hdb)
    as (w' & -> & id & Hpodcasts).
  set (a1 := show_session_podcasts 0 _ _).
  assert (Hw1 : world a1 = w').
  { unfold a1. by destruct (show_session_podcasts_frame
      (session_podcasts (world (set_world w' a0))) 0 (set_world w' a0))
      as [_ ->]. }
  destruct (research_assistant_frame env (in_prompt i) a1) as (Hw2 & _).
  unfold podcast_history, get_user_podcasts. rewrite Hhist, Hw2, Hw1.
  set (pod := {| title := name f; summary := summary; audio := audio_path;
                 created_at := CURRENT_TIMESTAMP (sqlite (pipeline env)) |}).
  assert (Hin : pod ∈ podcast_of_row <$> select_podcasts user_id (db w')).
  { rewrite select_podcasts_perm, Hpodcasts, filter_app, fmap_app.
    apply elem_of_app. right. rewrite filter_cons_True by done.
    simpl. by left. }
  destruct (podcast_of_row <$> select_podcasts user_id (db w'))
    as [|pod' pods] eqn:Hlist; [by apply elem_of_nil in Hin|].
  destruct (show_history_expander (pod' :: pods) 0
              (research_assistant env (in_prompt i) a1) pod Hin) as [n Hn].
  exists (show_history 0 (pod' :: pods) (research_assistant env (in_prompt i) a1)), n.
  split; [done|]. split; [exact Hn|].
  exact (show_history_summary (pod' :: pods) 0 _ pod Hin).
Qed.
End MainPageRuns.

(** ** What every reachable state satisfies *)

Lemma db_invariant_register `{Bcrypt} e salt username password d :
  db_invariant d →
  db_invariant (register_user e salt username password d).2 ∧
  ∃ l, users (register_user e salt username password d).2 = users d ++ l.
Proof.
  intros (Hnames & Hids & Howners).
  pose proof (register_user_usernames_unique e salt username password d Hnames)
    as Hnames'.
  destruct (register_user e salt username password d) as [[[] msg] d'] eqn:Hreg.
  - apply register_user_appends in Hreg
      as (row & Husers & _ & _ & _ & Hfresh & Hpodcasts & _).
    simpl in *. split; [|by eexists]. split_and!; [done|..].
    + rewrite Husers, fmap_app. apply NoDup_app. split_and!; [done|..].
      * intros id (old & -> & Hold)%list_elem_of_fmap
          [Heq|[]%elem_of_nil]%elem_of_cons.
        apply Hfresh in Hold. simpl in Heq. lia.
      * apply NoDup_singleton.
    + intros r Hr. rewrite Hpodcasts in Hr. apply Howners in Hr.
      rewrite Husers, fmap_app. apply elem_of_app. by left.
  - assert (d' = d) as ->.
    { revert Hreg. unfold register_user.
      destruct (execute _ _ _) as [[]|]; intros Heq; by simplify_eq. }
    simpl. split; [done|]. exists []. by rewrite (right_id_L [] (++)).
Qed.

Lemma session_invariant_grow s d d' l :
  users d' = users d ++ l →
  session_invariant s d → session_invariant s d'.
Proof.
  intros Husers. unfold session_invariant. destruct (ss_logged_in s); [|done].
  intros (row & Hrow & ? & ?). exists row. split; [|done].
  rewrite Husers. apply elem_of_app. by left.
Qed.

Lemma app_invariant_auth_page `{Bcrypt} e salt login signup a r a' :
  show_auth_page e salt login signup a = (r, a') →
  app_invariant a → app_invariant a'.
Proof.
  unfold show_auth_page.
  assert (Hlogin : ∀ form r1 a1, login_form e form a = (r1, a1) →
            app_invariant a → app_invariant a1).
  { intros form r1 a1 Hrun [Hdb Hsession].
    apply login_form_cases in Hrun
      as [Hsame [(_ & Hin & Hname & (row & ? & ? & ?) & _)|(_ & Hs & _)]];
      split; rewrite ?Hsame; try done.
    - unfold session_invariant. rewrite Hin. exists row. by rewrite Hname.
    - by rewrite Hs. }
  assert (Hsignup : ∀ form a1, app_invariant a1 →
            app_invariant (register_form e salt form a1)).
  { intros form a1 [Hdb Hsession]. unfold register_form.
    repeat (match goal with |- context [if ?b then _ else _] =>
              destruct b; [by split|] end).
    destruct (db_invariant_register e salt (new_username form)
                (new_password form) (db (world a1)) Hdb) as [Hdb' [l Hgrow]].
    destruct (register_user _ _ _ _ _) as [[success msg] d'].
    simpl in Hdb', Hgrow.
    assert (app_invariant (set_world (set_db d' (world a1)) a1)).
    { split; simpl; [done|]. by eapply session_invariant_grow. }
    by destruct success. }
  destruct login as [form|].
  - destruct (login_form e form a) as [r1 a1] eqn:Hrun.
    intros Heq Hinv. specialize (Hlogin _ _ _ Hrun Hinv).
    destruct r1; simplify_eq; try done.
    destruct signup; [by apply Hsignup|done].
  - intros [= <- <-] Hinv. destruct signup; [by apply Hsignup|done].
Qed.

Lemma show_main_app_no_upload env username user_id clicked w :
  show_main_app env username user_id None clicked w = (inr (), w).
Proof. done. Qed.

(** What a run of the main page can change in the database and in the
    login part of the session. *)
Lemma main_page_changes env username user_id i a r a' :
  show_main_app_page env username user_id i a = (r, a') →
  users (db (world a')) = users (db (world a)) ∧
  (∀ row, row ∈ podcasts (db (world a')) →
          row ∈ podcasts (db (world a)) ∨ p_user_id row = user_id) ∧
  ((ss_logged_in (session a') = ss_logged_in (session a) ∧
    ss_user_id (session a') = ss_user_id (session a) ∧
    ss_username (session a') = ss_username (session a)) ∨
   (ss_logged_in (session a') = false ∧ ss_user_id (session a') = None ∧
    ss_username (session a') = "")).
Proof.
  unfold show_main_app_page.
  set (a0 := show_validation_message
               (emit (sidebar_success ("👤 Logged in as **" +:+ username +:+ "**")) a)).
  destruct (show_validation_message_frame
              (emit (sidebar_success ("👤 Logged in as **" +:+ username +:+ "**")) a))
    as (Hs0 & Hw0 & _).
  fold a0 in Hs0, Hw0. simpl in Hs0, Hw0.
  destruct (in_logout i).
  { intros [= <- <-]. unfold log_out. simpl. rewrite Hw0. split_and!; auto. }
  destruct (ss_api_key_validated (session a0)); simpl.
  2: { intros [= <- <-]. simpl. rewrite Hs0, Hw0. split_and!; auto. }
  destruct (init_services env).
  { intros [= <- <-]. simpl. rewrite Hs0, Hw0. split_and!; auto. }
  assert (Htab : ∀ r1 a1,
            podcast_generator_tab env username user_id i a0 = (r1, a1) →
            session a1 = session a ∧
            users (db (world a1)) = users (db (world a)) ∧
            ∀ row, row ∈ podcasts (db (world a1)) →
                   row ∈ podcasts (db (world a)) ∨ p_user_id row = user_id).
  { intros r1 a1. unfold podcast_generator_tab.
    destruct (in_upload i) as [f|].
    - rewrite Hw0.
      pose proof (show_main_app_changes (pipeline env) username user_id f
                    (in_generate i) (world a)) as (Husers & _ & Hpod & _).
      assert (Hrows : ∀ row,
                row ∈ podcasts (db (show_main_app (pipeline env) username
                  user_id (Some f) (in_generate i) (world a)).2) →
                row ∈ podcasts (db (world a)) ∨ p_user_id row = user_id).
      { intros row. destruct Hpod as [->|(new & -> & Hid & _)]; [auto|].
        intros [?|Heq%list_elem_of_singleton]%elem_of_app; [auto|].
        subst row. auto. }
      destruct (show_main_app _ _ _ _ _ _) as [[[]|[]] w'];
        intros [= <- <-]; simpl in *;
        rewrite ?(proj1 (show_session_podcasts_frame _ _ _)),
          ?(proj2 (show_session_podcasts_frame _ _ _)); simpl;
        by rewrite ?Hs0.
    - rewrite show_main_app_no_upload. intros [= <- <-].
      rewrite ?(proj1 (show_session_podcasts_frame _ _ _)),
        ?(proj2 (show_session_podcasts_frame _ _ _)). simpl.
      rewrite Hs0, Hw0. auto. }
  destruct (podcast_generator_tab env username user_id i a0) as [r1 a1].
  destruct (Htab r1 a1 eq_refl) as (Hs1 & Husers & Hrows).
  destruct r1; [|intros [= <- <-]; rewrite Hs1; split_and!; auto..].
  intros Hhistory. apply podcast_history_frame in Hhistory as [-> ->].
  destruct (research_assistant_frame env (in_prompt i) a1)
    as (-> & -> & -> & -> & _).
  rewrite Hs1. split_and!; auto.
Qed.

Lemma app_invariant_main_page env user_id i a r a' :
  ss_logged_in (session a) = true →
  ss_user_id (session a) = Some user_id →
  show_main_app_page env (ss_username (session a)) user_id i a = (r, a') →
  app_invariant a → app_invariant a'.
Proof.
  intros Hin Hid Hrun [(Hnames & Hids & Howners) Hsession].
  apply main_page_changes in Hrun as (Husers & Hrows & Hlogin).
  assert (Hme : user_id ∈ (u_id <$> users (db (world a)))).
  { unfold session_invariant in Hsession. rewrite Hin in Hsession.
    destruct Hsession as (row & ? & Hrow & _).
    apply list_elem_of_fmap. exists row. split; [congruence|done]. }
  split.
  - unfold db_invariant. rewrite Husers. split_and!; [done|done|].
    intros row [?|Hmine]%Hrows; [auto|]. by rewrite Hmine.
  - unfold session_invariant in *.
    destruct Hlogin as [(-> & -> & ->)|(-> & -> & ->)]; [|done].
    rewrite Hin in *. by rewrite Husers.
Qed.

(** X20.  In every state that a browser session reaches from a fresh
    start, through any runs of the login page, the main page and the key
    callback: usernames are unique, user ids are unique, every stored
    podcast belongs to a registered user, and the session is logged in
    exactly when it carries the id and the name of one stored account. *)
Theorem reachable_app_invariant `{Bcrypt} a :
  rtc script_run fresh_app a → app_invariant a.
Proof.
  revert a. apply rtc_ind_r; [|intros a1 a2 Hreach Hstep IH].
  - split; [|done]. split_and!; [apply NoDup_nil_2..|].
    by intros r ?%elem_of_nil.
  - destruct Hstep as [clients api_key a1|e salt login signup a1 r a2 _ Hrun
                      |env user_id i a1 r a2 Hin Hid Hrun].
    + destruct IH as [Hdb Hsession]. split; [done|].
      destruct (validate_api_key_callback_frame clients api_key (session a1))
        as (Hl & Hu & Hi).
      unfold session_invariant in *. simpl. by rewrite Hl, Hu, Hi.
    + by eapply app_invariant_auth_page.
    + by eapply app_invariant_main_page.
Qed.

(** ** Audio paths *)

Lemma prefix_cons_cons a s1 b s2 :
  String.prefix (String a s1) (String b s2) =
  if ascii_dec a b then String.prefix s1 s2 else false.
Proof. done. Qed.

Lemma prefix_slash_append s rest :
  s ≠ "" → String.prefix "/" (s +:+ rest) = String.prefix "/" s.
Proof.
  destruct s as [|c s]; [done|]. intros _.
  change (String c s +:+ rest) with (String c (s +:+ rest)).
  rewrite !prefix_cons_cons. destruct (ascii_dec "/" c); [|done].
  transitivity true; [by destruct (s +:+ rest)|by destruct s].
Qed.

(** X21.  The audio file of a user whose name does not begin with a
    slash is named after the user and the time inside [audio_files]; for
    a name that begins with a slash, which the sign-up form accepts, the
    path is the name itself followed by the time: an absolute path outside
    [audio_files]. *)
Theorem wav_path_directory env username :
  wav_path env username =
  if String.prefix "/" username
  then username +:+ "_" +:+ datetime_now env +:+ ".wav"
  else "audio_files/" +:+ username +:+ "_" +:+ datetime_now env +:+ ".wav".
Proof.
  unfold wav_path, os_path_join. destruct (decide (username = "")) as [->|Hname].
  - done.
  - rewrite prefix_slash_append by done.
    by destruct (String.prefix "/" username).
Qed.

Lemma replace_go_skip old new x rest :
  old ≠ "" →
  replace_go old new (String.length x) (x +:+ rest) = replace_go old new 0 rest.
Proof.
  intros Hold. induction x as [|c x IH]; [done|].
  change (String c x +:+ rest) with (String c (x +:+ rest)). simpl. exact IH.
Qed.

Lemma append_length s1 s2 :
  String.length (s1 +:+ s2) = (String.length s1 + String.length s2)%nat.
Proof.
  induction s1 as [|c s1 IH]; [done|].
  change (String c s1 +:+ s2) with (String c (s1 +:+ s2)). simpl. by rewrite IH.
Qed.

(** An occurrence of [".wav"] at the start of a string that ends with
    [".wav"] is the whole string, or is followed by a string that ends
    with [".wav"]. *)
Lemma wav_after_wav stem rest :
  stem +:+ ".wav" = ".wav" +:+ rest →
  rest = "" ∨ ∃ stem', rest = stem' +:+ ".wav" ∧
                       (String.length stem' < String.length stem)%nat.
Proof.
  destruct stem as [|c0 [|c1 [|c2 [|c3 stem']]]]; intros Heq;
    cbv [String.append] in Heq; fold String.append in Heq.
  - left. by injection Heq.
  - by injection Heq.
  - by injection Heq.
  - by injection Heq.
  - right. exists stem'. split; [by injection Heq|]. simpl. lia.
Qed.

Lemma str_replace_wav_suffix n stem :
  (String.length stem < n)%nat →
  ∃ stem', replace_go ".wav" ".mp3" 0 (stem +:+ ".wav") = stem' +:+ ".mp3".
Proof.
  revert stem. induction n as [|n IH]; intros stem Hlen; [lia|].
  destruct stem as [|c stem]; [by exists ""|].
  change (String c stem +:+ ".wav") with (String c (stem +:+ ".wav")).
  rewrite replace_go_cons.
  destruct (String.prefix ".wav" (String c (stem +:+ ".wav"))) eqn:Hprefix.
  - apply prefix_append in Hprefix as [rest Hrest].
    assert (Hrest' : String c stem +:+ ".wav" = ".wav" +:+ rest) by done.
    assert (Htail : stem +:+ ".wav" = "wav" +:+ rest).
    { cbv [String.append] in Hrest. fold String.append in Hrest.
      by injection Hrest. }
    rewrite Htail.
    change (String.length ".wav" - 1)%nat with (String.length "wav").
    rewrite replace_go_skip by done.
    apply wav_after_wav in Hrest' as [->|(stem' & -> & Hshort)].
    + by exists "".
    + destruct (IH stem') as [pre ->]; [simpl in *; lia|].
      exists (".mp3" +:+ pre). by rewrite append_assoc.
  - destruct (IH stem) as [pre ->]; [simpl in Hlen; lia|].
    by exists (String c pre).
Qed.

(** X22.  The path that the fallback synthesizer writes to always ends
    with [.mp3], also when the username itself contains [.wav] (every
    occurrence is replaced, not only the extension). *)
Theorem mp3_path_extension env username :
  endswith (mp3_path env username) ".mp3" = true.
Proof.
  unfold mp3_path, str_replace.
  destruct (wav_path_stem env username) as [stem ->].
  destruct (str_replace_wav_suffix (S (String.length stem)) stem) as [pre ->];
    [lia|].
  apply endswith_append.
Qed.

(** ** The audio file of a successful run *)

(** X23.  After a run in which the audio was synthesized, the file at the
    recorded audio path exists and the temporary copy of the upload does
    not, provided the two paths differ. *)
Theorem generated_audio_exists env username user_id f w text_content texts
    summary audio_path :
  accepted f →
  text_extraction env f (temp_file_path env f) = inr (text_content, texts) →
  summarize_chain_run env (select_chain_type text_content)
    (create_documents env texts) = inr summary →
  synthesized env username summary audio_path →
  audio_path ≠ temp_file_path env f →
  ∃ w', show_main_app env username user_id (Some f) true w = (inr (), w') ∧
        audio_path ∈ files w' ∧
        (temp_file_path env f ∉ files w') ∧
        last (session_podcasts w') =
          Some {| s_title := name f; s_summary := summary;
                  s_audio := audio_path |}.
Proof.
  intros Hok Hload Hsum Hsynth Hdiff.
  rewrite run_accepted with (1 := Hok). simpl. rewrite try_generate_run.
  rewrite generate_podcast_synthesized
    with (1 := Hload) (2 := Hsum) (3 := Hsynth).
  rewrite publish_run. simpl. eexists. split; [done|]. simpl. split_and!.
  - apply elem_of_difference. split.
    + apply elem_of_union_l. by apply elem_of_singleton.
    + by intros ?%elem_of_singleton.
  - apply not_elem_of_difference. right. by apply elem_of_singleton.
  - apply last_snoc.
Qed.

(** ** The further properties at sample inputs *)

Lemma register_user_fresh_id_sample :
  ∃ row, users alice_database = users empty_database ++ [row] ∧
         u_username row = "alice" ∧
         users_seq empty_database < u_id row ∧
         users_seq alice_database = u_id row ∧
         (∀ old, old ∈ users empty_database → u_id old < u_id row) ∧
         podcasts alice_database = podcasts empty_database ∧
         podcasts_seq alice_database = podcasts_seq empty_database.
Proof.
  exact (@register_user_fresh_id sample_bcrypt (quiet "2024-05-01 09:00:00")
           "N9qo8uLO" "alice" "s3cret-pw" empty_database
           "Registration successful" alice_database eq_refl).
Defined.

Lemma register_user_keeps_other_accounts_sample :
  @authenticate_user sample_bcrypt (quiet "2024-05-02 08:00:00") "alice"
    "s3cret-pw"
    (@register_user sample_bcrypt (quiet "2024-05-02 07:00:00") "Xk2pQ7vR"
       "bobby" "hunter22" alice_database).2
  = @authenticate_user sample_bcrypt (quiet "2024-05-02 08:00:00") "alice"
      "s3cret-pw" alice_database.
Proof.
  apply (@register_user_keeps_other_accounts sample_bcrypt).
  left. discriminate.
Defined.

Lemma authenticate_user_sound_sample :
  ∃ row, row ∈ users alice_database ∧ u_username row = "alice" ∧
         Some 1 = Some (u_id row) ∧
         @verify_password sample_bcrypt "s3cret-pw" (u_password row) = true.
Proof.
  exact (@authenticate_user_sound sample_bcrypt (quiet "2024-05-02 08:00:00")
           "alice" "s3cret-pw" alice_database (Some 1) eq_refl).
Defined.

Lemma save_podcast_then_list_sample :
  ∃ w' before after,
    save_podcast (quiet "2024-05-01 10:00:00") 1 "notes.txt" "A greeting."
      "audio_files/alice_20240501_100000.wav" alice_world = (inr true, w') ∧
    get_user_podcasts (quiet "2024-05-01 10:00:05") 1 (db alice_world)
      = inr before ∧
    get_user_podcasts (quiet "2024-05-01 10:00:05") 1 (db w') = inr after ∧
    after ≡ₚ {| title := "notes.txt"; summary := "A greeting.";
                audio := "audio_files/alice_20240501_100000.wav";
                created_at := "2024-05-01 10:00:00" |} :: before ∧
    users (db w') = users (db alice_world).
Proof.
  exact (save_podcast_then_list (quiet "2024-05-01 10:00:00")
           (quiet "2024-05-01 10:00:05") 1 "notes.txt" "A greeting."
           "audio_files/alice_20240501_100000.wav" alice_world
           eq_refl eq_refl).
Defined.

Lemma save_podcast_other_users_sample :
  get_user_podcasts (quiet "2024-05-01 10:00:05") 2
    (db (save_podcast (quiet "2024-05-01 10:00:00") 1 "c.txt" "C"
           "audio_files/ann_20240501_100000.mp3"
           {| db := same_second_database; files := ∅; session_podcasts := [];
              screen := []; calls := [] |}).2)
  = get_user_podcasts (quiet "2024-05-01 10:00:05") 2 same_second_database.
Proof.
  apply (save_podcast_other_users (quiet "2024-05-01 10:00:00")
           (quiet "2024-05-01 10:00:05") 1 2).
  discriminate.
Defined.


Lemma validate_api_key_callback_outcome_sample :
  (len "gsk_0123456789" = 14)%nat ∧
  ss_api_key_validated
    (validate_api_key_callback (λ _, inr ()) "gsk_0123456789" initial_session)
  = true ∧
  ss_groq_api_key
    (validate_api_key_callback (λ _, inr ()) "gsk_0123456789" initial_session)
  = "gsk_0123456789".
Proof.
  split; [reflexivity|].
  destruct (validate_api_key_callback_outcome (λ _, inr ()) "gsk_0123456789"
              initial_session) as (Hvalid & Hkey & _).
  assert (Hok : ss_api_key_validated
                  (validate_api_key_callback (λ _, inr ()) "gsk_0123456789"
                     initial_session) = true).
  { apply Hvalid. split; [vm_compute; lia|reflexivity]. }
  split; [exact Hok|exact (Hkey Hok)].
Defined.

Lemma register_form_invalid_sample :
  (len "al" < 3)%nat ∧
  ∃ reason,
    @register_form sample_bcrypt (quiet "2024-05-01 09:00:00") "N9qo8uLO"
      {| new_username := "al"; new_password := "s3cret-pw";
         confirm_password := "s3cret-pw" |} fresh_app
    = emit (page_error reason) fresh_app.
Proof.
  assert (Hshort : (len "al" < 3)%nat) by (vm_compute; lia).
  split; [exact Hshort|].
  apply (@register_form_invalid sample_bcrypt). left. exact Hshort.
Defined.

Lemma login_form_effect_sample :
  ∃ a', @login_form sample_bcrypt (quiet "2024-05-02 08:00:00") alice_login
          visitor_app = (Rerun, a') ∧
        db (world a') = db (world visitor_app) ∧
        ss_logged_in (session a') = true ∧
        ss_user_id (session a') = Some 1.
Proof.
  eexists. split; [reflexivity|].
  destruct (@login_form_effect sample_bcrypt (quiet "2024-05-02 08:00:00")
              alice_login visitor_app Rerun _ eq_refl)
    as [Hdb [(_ & Hin & _ & _ & _ & _)|(Hno & _)]].
  - split; [exact Hdb|]. split; [exact Hin|reflexivity].
  - destruct Hno. reflexivity.
Defined.

Lemma sign_up_then_login_sample :
  ∃ a1 a2 row,
    @show_auth_page sample_bcrypt (quiet "2024-05-01 09:00:00") "N9qo8uLO"
      None (Some alice_sign_up) fresh_app = (Finished, a1) ∧
    session a1 = session fresh_app ∧
    @show_auth_page sample_bcrypt (quiet "2024-05-02 08:00:00") "Xk2pQ7vR"
      (Some {| username_input := new_username alice_sign_up;
               password_input := new_password alice_sign_up |}) None a1
    = (Rerun, a2) ∧
    row ∈ users (db (world a2)) ∧
    u_username row = new_username alice_sign_up ∧
    ss_logged_in (session a2) = true ∧
    ss_username (session a2) = new_username alice_sign_up ∧
    ss_user_id (session a2) = Some (u_id row).
Proof.
  apply (@sign_up_then_login sample_bcrypt sample_bcrypt_spec).
  - vm_compute. lia.
  - vm_compute. lia.
  - reflexivity.
  - simpl. intros Hin. apply elem_of_nil in Hin. exact Hin.
  - reflexivity.
  - reflexivity.
Defined.

Lemma main_page_gated_sample :
  ∃ a', show_main_app_page (sample_page_env (inr ())) "alice" 1
          {| in_logout := false; in_upload := Some notes_txt;
             in_generate := true; in_prompt := Some "hello" |}
          (alice_app false) = (Finished, a') ∧
        session a' = session (alice_app false) ∧
        world a' = world (alice_app false).
Proof.
  apply main_page_gated; reflexivity.
Defined.

Lemma main_page_logout_sample :
  ∃ a', show_main_app_page (sample_page_env (inr ())) "alice" 1
          {| in_logout := true; in_upload := Some notes_txt;
             in_generate := true; in_prompt := Some "hello" |}
          (alice_app true) = (Rerun, a') ∧
        session a' = initial_session ∧
        session_podcasts (world a') = [] ∧
        db (world a') = db (world (alice_app true)) ∧
        files (world a') = files (world (alice_app true)) ∧
        calls (world a') = calls (world (alice_app true)).
Proof.
  apply main_page_logout. reflexivity.
Defined.

Lemma not_accepted_big_pdf : ¬ accepted big_pdf.
Proof. intros [_ Hsize]. unfold big_pdf in Hsize. simpl in Hsize. lia. Qed.

Lemma main_page_stopped_by_upload_sample :
  ∃ a', show_main_app_page (sample_page_env (inr ())) "alice" 1
          {| in_logout := false; in_upload := Some big_pdf;
             in_generate := true; in_prompt := Some "hello" |}
          (alice_app true) = (Stopped, a') ∧
        session a' = session (alice_app true) ∧
        db (world a') = db (world (alice_app true)) ∧
        calls (world a') = calls (world (alice_app true)) ∧
        page a' =
          page (show_validation_message
                  (emit (sidebar_success ("👤 Logged in as **" +:+ "alice" +:+ "**"))
                     (alice_app true))).
Proof.
  apply main_page_stopped_by_upload with (f := big_pdf);
    [reflexivity..|exact not_accepted_big_pdf].
Defined.




Lemma generated_podcast_in_history_sample :
  ∃ a' (n : nat),
    show_main_app_page (sample_page_env (inr ())) "alice" 1
      {| in_logout := false; in_upload := Some notes_txt;
         in_generate := true; in_prompt := None |}
      (alice_app true) = (Finished, a') ∧
    expander ("🎧 " +:+ pretty n +:+ ". " +:+ "notes.txt" +:+ " - " +:+
              "2024-05-01")
    ∈ page a' ∧
    page_write "A greeting." ∈ page a'.
Proof.
  apply (generated_podcast_in_history (sample_page_env (inr ())) "alice" 1
           {| in_logout := false; in_upload := Some notes_txt;
              in_generate := true; in_prompt := None |}
           (alice_app true) notes_txt "hello brave new world"
           ["hello brave new world"] "A greeting."
           "audio_files/alice_20240501_100000.wav");
    try reflexivity.
  - exact accepted_notes_txt.
  - apply (synthesized_by_primary
             (sample_env (quiet "2024-05-01 10:00:00") (inr ())) "alice"
             "A greeting."). reflexivity.
Defined.

Lemma reachable_app_invariant_sample :
  rtc (@script_run sample_bcrypt) fresh_app
    (@show_auth_page sample_bcrypt (quiet "2024-05-01 09:00:00") "N9qo8uLO"
       None (Some alice_sign_up) fresh_app).2 ∧
  app_invariant
    (@show_auth_page sample_bcrypt (quiet "2024-05-01 09:00:00") "N9qo8uLO"
       None (Some alice_sign_up) fresh_app).2.
Proof.
  assert (Hreach : rtc (@script_run sample_bcrypt) fresh_app
            (@show_auth_page sample_bcrypt (quiet "2024-05-01 09:00:00")
               "N9qo8uLO" None (Some alice_sign_up) fresh_app).2).
  { apply rtc_once.
    apply (@run_auth_page sample_bcrypt (quiet "2024-05-01 09:00:00")
             "N9qo8uLO" None (Some alice_sign_up) fresh_app Finished);
      reflexivity. }
  split; [exact Hreach|].
  exact (@reachable_app_invariant sample_bcrypt _ Hreach).
Defined.

Lemma generated_audio_exists_sample :
  ∃ w', show_main_app (sample_env (quiet "2024-05-01 10:00:00") (inr ()))
          "alice" 1 (Some notes_txt) true alice_world = (inr (), w') ∧
        "audio_files/alice_20240501_100000.wav" ∈ files w' ∧
        ("/tmp/tmpk3v9x2ab.txt" ∉ files w') ∧
        last (session_podcasts w') =
          Some {| s_title := "notes.txt"; s_summary := "A greeting.";
                  s_audio := "audio_files/alice_20240501_100000.wav" |}.
Proof.
  apply (generated_audio_exists
           (sample_env (quiet "2024-05-01 10:00:00") (inr ())) "alice" 1
           notes_txt alice_world "hello brave new world"
           ["hello brave new world"] "A greeting."
           "audio_files/alice_20240501_100000.wav").
  - exact accepted_notes_txt.
  - reflexivity.
  - reflexivity.
  - apply (synthesized_by_primary
             (sample_env (quiet "2024-05-01 10:00:00") (inr ())) "alice"
             "A greeting."). reflexivity.
  - discriminate.
Defined.

Lemma temp_copy_kept_without_click_sample :
  ∃ w', show_main_app (sample_env (quiet "2024-05-01 10:00:00") (inr ()))
          "alice" 1 (Some notes_txt) false alice_world = (inr (), w') ∧
        "/tmp/tmpk3v9x2ab.txt" ∈ files w' ∧ calls w' = calls alice_world.
Proof.
  exact (temp_copy_kept_without_click
           (sample_env (quiet "2024-05-01 10:00:00") (inr ())) "alice" 1
           notes_txt alice_world accepted_notes_txt).
Defined.
